(** * no-restricted-imports: a shallow embedding of lib/rules/no-restricted-imports.js

    The rule is embedded function by function.  Reports made through
    [context.report] are accumulated in a list that is threaded through a
    small state-and-exception monad; a JavaScript [TypeError] raised by a
    property read on [undefined] or [null] is an explicit [Throw]. *)

From Stdlib Require Import Ascii.
From stdpp Require Import base option list strings gmap fin_maps.

(** ** JavaScript values *)

(** A value that is either [undefined], [null] or a proper value. *)
Inductive JsOpt (A : Type) : Type :=
| undefined
| null
| Val (a : A).
Arguments undefined {A}.
Arguments null {A}.
Arguments Val {A} a.

Global Instance JsOpt_eq_dec {A} `{EqDecision A} : EqDecision (JsOpt A).
Proof. solve_decision. Defined.

(** Truthiness of a string-or-absent value: [undefined], [null] and the
    empty string are falsy. *)
Definition truthy (v : JsOpt string) : bool :=
  match v with
  | Val s => negb (String.eqb s "")
  | _ => false
  end.

(** [v === null] *)
Definition strict_eq_null {A} (v : JsOpt A) : bool :=
  match v with
  | null => true
  | _ => false
  end.

(** [Array.prototype.find]: the first element satisfying the predicate,
    [undefined] when there is none. *)
Fixpoint find {A} (l : list A) (p : A → bool) : JsOpt A :=
  match l with
  | [] => undefined
  | x :: l' => if p x then Val x else find l' p
  end.

(** ToPropertyKey of a value used as a computed property name. *)
Definition to_key (v : JsOpt string) : string :=
  match v with
  | undefined => "undefined"
  | null => "null"
  | Val s => s
  end.

(** [obj[key] = v] on an object created by the literal [{}], seen through
    its own properties.  Assigning to the key ["__proto__"] runs the setter
    inherited from [Object.prototype]: it replaces the prototype of the
    object and creates no own property. *)
Definition object_set {V} (obj : gmap string V) (key : string) (v : V) : gmap string V :=
  if decide (key = "__proto__") then obj else <[key := v]> obj.

(** ** Syntax tree *)

Record Position := { line : nat; column : nat }.
Record SourceLocation := { loc_start : Position; loc_end : Position }.

Record Token := { token_value : string; token_loc : SourceLocation }.

Record Identifier := { id_name : string }.

Inductive SpecifierType :=
| ImportDefaultSpecifier
| ImportNamespaceSpecifier
| ImportSpecifier
| ExportSpecifier.

Record Specifier := {
  spec_type : SpecifierType;
  imported : option Identifier;
  local : option Identifier;
  spec_loc : SourceLocation
}.

Inductive NodeType :=
| ImportDeclaration
| ExportNamedDeclaration
| ExportAllDeclaration.

(** A statement.  [source] is the [value] of the source literal ([None]
    for an export without [from]); [tokens] are the tokens of the
    statement, as [sourceCode] has them. *)
Record Node := {
  node_type : NodeType;
  source : option string;
  specifiers : option (list Specifier);
  tokens : list Token;
  node_loc : SourceLocation
}.

(** [sourceCode.getFirstToken(node, skip)] *)
Definition getFirstToken (node : Node) (skip : nat) : option Token :=
  tokens node !! skip.

(** ** Reports *)

Module messages.
Inductive Id :=
| path
| pathWithCustomMessage
| patternWithCustomMessage
| patterns
| everything
| everythingWithCustomMessage
| importName
| importNameWithCustomMessage.
End messages.

(** The [data] object of a report; a key that the report does not set is
    [None]. *)
Record ReportData := {
  data_importSource : string;
  data_importNames : option (list string);
  data_customMessage : JsOpt string;
  data_importName : option string
}.

(** The argument of [context.report]; [loc] is [None] when the report
    gives no location of its own and so is placed at [node]. *)
Record Report := {
  node : Node;
  messageId : messages.Id;
  loc : option SourceLocation;
  data : ReportData
}.

Global Instance Position_eq_dec : EqDecision Position.
Proof. solve_decision. Defined.
Global Instance SourceLocation_eq_dec : EqDecision SourceLocation.
Proof. solve_decision. Defined.
Global Instance messages_Id_eq_dec : EqDecision messages.Id.
Proof. solve_decision. Defined.

(** ** Effects: reports and exceptions *)

Inductive Exception := TypeError.

Inductive Completion (A : Type) : Type :=
| Normal (a : A)
| Throw (e : Exception).
Arguments Normal {A} a.
Arguments Throw {A} e.

(** A computation reads the reports made so far and gives a completion and
    the reports made up to it. *)
Definition Eff (A : Type) : Type := list Report → Completion A * list Report.

Global Instance Eff_ret : MRet Eff := λ A a rs, (Normal a, rs).

Global Instance Eff_bind : MBind Eff := λ A B f m rs,
  match m rs with
  | (Normal a, rs') => f a rs'
  | (Throw e, rs') => (Throw e, rs')
  end.

Definition throw {A} (e : Exception) : Eff A := λ rs, (Throw e, rs).

(** [context.report(r)] *)
Definition report (r : Report) : Eff unit := λ rs, (Normal tt, rs ++ [r]).

(** [Array.prototype.forEach] *)
Fixpoint forEach {A} (l : list A) (f : A → Eff unit) : Eff unit :=
  match l with
  | [] => mret tt
  | x :: l' => f x ;; forEach l' f
  end.

(** ** Configuration *)

(** An object of the options; a property that is not there reads as
    [undefined]. *)
Record ConfigObject := {
  cfg_name : JsOpt string;
  cfg_pattern : JsOpt string;
  cfg_message : JsOpt string;
  cfg_importNames : JsOpt (list string)
}.

Inductive ConfigItem :=
| CString (s : string)
| CObject (o : ConfigObject).

(** An element of [context.options]: an item of the flat list, or the
    object with the properties [paths] and [patterns]. *)
Inductive OptionsElement :=
| OItem (i : ConfigItem)
| OPathsAndPatterns (paths patterns : JsOpt (list ConfigItem)).

Definition is_string (e : OptionsElement) : option string :=
  match e with
  | OItem (CString s) => Some s
  | _ => None
  end.

Definition elem_name (e : OptionsElement) : JsOpt string :=
  match e with
  | OItem (CObject o) => cfg_name o
  | _ => undefined
  end.

Definition elem_message (e : OptionsElement) : JsOpt string :=
  match e with
  | OItem (CObject o) => cfg_message o
  | _ => undefined
  end.

Definition elem_importNames (e : OptionsElement) : JsOpt (list string) :=
  match e with
  | OItem (CObject o) => cfg_importNames o
  | _ => undefined
  end.

(** The values of the table [restrictedPathMessages]. *)
Record PathEntry := {
  entry_message : JsOpt string;
  entry_importNames : JsOpt (list string)
}.

(** The elements of [restrictedPatternMatchers]. *)
Record PatternMatcher := {
  matcher : string → bool;
  pattern : JsOpt string;
  message : JsOpt string
}.

(** The values of the map [importNames] of [checkNode]. *)
Record SpecifierData := { sd_loc : SourceLocation }.

Global Instance SpecifierData_eq_dec : EqDecision SpecifierData.
Proof. solve_decision. Defined.

(** [typeof options[0] === "object" && (hasOwnProperty(options[0], "paths")
    || hasOwnProperty(options[0], "patterns"))] *)
Definition present {A} (v : JsOpt A) : bool :=
  match v with
  | undefined => false
  | _ => true
  end.

Definition isPathAndPatternsObject (options : list OptionsElement) : bool :=
  match options with
  | OPathsAndPatterns paths patterns :: _ => present paths || present patterns
  | _ => false
  end.

(** [v || []] for an array or absent [v] *)
Definition or_empty {A} (v : JsOpt (list A)) : list A :=
  match v with
  | Val l => l
  | _ => []
  end.

Definition restrictedPaths (options : list OptionsElement) : list OptionsElement :=
  if isPathAndPatternsObject options then
    match options with
    | OPathsAndPatterns paths _ :: _ => OItem <$> or_empty paths
    | _ => []
    end
  else options.

Definition restrictedPatterns (options : list OptionsElement) : list ConfigItem :=
  if isPathAndPatternsObject options then
    match options with
    | OPathsAndPatterns _ patterns :: _ => or_empty patterns
    | _ => []
    end
  else [].

(** The callback of the [reduce] that builds [restrictedPathMessages]. *)
Definition add_path (memo : gmap string PathEntry) (importSource : OptionsElement)
  : gmap string PathEntry :=
  match is_string importSource with
  | Some s => object_set memo s {| entry_message := null; entry_importNames := undefined |}
  | None =>
      object_set memo (to_key (elem_name importSource))
        {| entry_message := elem_message importSource;
           entry_importNames := elem_importNames importSource |}
  end.

(** ** The reports the rule makes *)

(** The report of lines 167-176: a namespace import or an export-all of a
    source some of whose names are restricted. *)
Definition everything_report (importSource : string) (customMessage : JsOpt string)
    (restrictedImportNames : list string) (node : Node) (specifierData : SpecifierData)
    : Report :=
  {| node := node;
     messageId := if truthy customMessage
                  then messages.everythingWithCustomMessage
                  else messages.everything;
     loc := Some (sd_loc specifierData);
     data := {| data_importSource := importSource;
                data_importNames := Some restrictedImportNames;
                data_customMessage := customMessage;
                data_importName := None |} |}.

(** The report of lines 184-193: one occurrence of a restricted name. *)
Definition importName_report (importSource : string) (customMessage : JsOpt string)
    (node : Node) (importName : string) (specifier : SpecifierData) : Report :=
  {| node := node;
     messageId := if truthy customMessage
                  then messages.importNameWithCustomMessage
                  else messages.importName;
     loc := Some (sd_loc specifier);
     data := {| data_importSource := importSource;
                data_importNames := None;
                data_customMessage := customMessage;
                data_importName := Some importName |} |}.

(** The report of lines 198-205: a source restricted as a whole. *)
Definition path_report (importSource : string) (customMessage : JsOpt string)
    (node : Node) : Report :=
  {| node := node;
     messageId := if truthy customMessage
                  then messages.pathWithCustomMessage
                  else messages.path;
     loc := None;
     data := {| data_importSource := importSource;
                data_importNames := None;
                data_customMessage := customMessage;
                data_importName := None |} |}.

(** The report of lines 228-235: a source restricted by a pattern. *)
Definition pattern_report (importSource : string) (customMessage : JsOpt string)
    (node : Node) : Report :=
  {| node := node;
     messageId := if truthy customMessage
                  then messages.patternWithCustomMessage
                  else messages.patterns;
     loc := None;
     data := {| data_importSource := importSource;
                data_importNames := None;
                data_customMessage := customMessage;
                data_importName := None |} |}.

(** ** The rule *)

(** The listeners that [create] returns; a listener that is not there is
    [None]. *)
Record Listeners := {
  on_ImportDeclaration : option (Node → Eff unit);
  on_ExportNamedDeclaration : option (Node → Eff unit);
  on_ExportAllDeclaration : option (Node → Eff unit)
}.

Section Rule.

(** [String.prototype.trim], and [ignore().add(pattern).ignores(path)] of
    the package [ignore], which the rule only calls. *)
Context (trim : string → string).
Context (ignore_add : JsOpt string → string → bool).

Section Checker.

(** The two tables that the functions of [create] close over. *)
Context (restrictedPathMessages : gmap string PathEntry).
Context (restrictedPatternMatchers : list PatternMatcher).

(** [importSource] is looked up among the own properties of the
    table ([hasOwnProperty]) before the table is read. *)
Definition checkRestrictedPathAndReport (importSource : string)
    (importNames : gmap string (list SpecifierData)) (node : Node) : Eff unit :=
  match restrictedPathMessages !! importSource with
  | None => mret tt
  | Some entry =>
      let customMessage := entry_message entry in
      let restrictedImportNames := entry_importNames entry in
      match restrictedImportNames with
      | Val names =>
          match importNames !! "*" with
          | Some occurrences =>
              match occurrences !! 0%nat with
              | Some specifierData =>
                  report (everything_report importSource customMessage names
                            node specifierData)
              | None => throw TypeError
              end
          | None => mret tt
          end ;;
          forEach names (λ importName,
            match importNames !! importName with
            | Some specifiers =>
                forEach specifiers (λ specifier,
                  report (importName_report importSource customMessage node
                            importName specifier))
            | None => mret tt
            end)
      | _ => report (path_report importSource customMessage node)
      end
  end.

Definition checkRestrictedPatternAndReport (importSource : string) (node : Node)
    : Eff unit :=
  if (length restrictedPatternMatchers =? 0)%nat then mret tt
  else
    let matchedPattern :=
      find restrictedPatternMatchers (λ patternMatcher,
        matcher patternMatcher importSource) in
    if strict_eq_null matchedPattern then mret tt
    else
      match matchedPattern with
      | Val matched => report (pattern_report importSource (message matched) node)
      | _ => throw TypeError
      end.

(** The name of a specifier, as the loop of [checkNode] computes it;
    [undefined] when no branch assigns [name]. *)
Definition specifier_name (specifier : Specifier) : JsOpt string :=
  match spec_type specifier with
  | ImportDefaultSpecifier => Val "default"
  | ImportNamespaceSpecifier => Val "*"
  | _ =>
      match imported specifier with
      | Some i => Val (id_name i)
      | None =>
          match local specifier with
          | Some l => Val (id_name l)
          | None => undefined
          end
      end
  end.

(** One turn of the loop of [checkNode] over the specifiers. *)
Definition add_specifier (importNames : gmap string (list SpecifierData))
    (specifier : Specifier) : gmap string (list SpecifierData) :=
  let name := specifier_name specifier in
  let specifierData := {| sd_loc := spec_loc specifier |} in
  match name with
  | Val key =>
      if truthy name then
        match importNames !! key with
        | Some occurrences => <[key := occurrences ++ [specifierData]]> importNames
        | None => <[key := [specifierData]]> importNames
        end
      else importNames
  | _ => importNames
  end.

(** The map [importNames] that [checkNode] builds for a statement. *)
Definition collect_importNames (node : Node) : Eff (gmap string (list SpecifierData)) :=
  match node_type node with
  | ExportAllDeclaration =>
      match getFirstToken node 1 with
      | Some starToken => mret {[ "*" := [ {| sd_loc := token_loc starToken |} ] ]}
      | None => throw TypeError
      end
  | _ =>
      match specifiers node with
      | Some l => mret (foldl add_specifier ∅ l)
      | None => mret ∅
      end
  end.

Definition checkNode (node : Node) : Eff unit :=
  match source node with
  | None => throw TypeError
  | Some value =>
      let importSource := trim value in
      importNames ← collect_importNames node;
      checkRestrictedPathAndReport importSource importNames node ;;
      checkRestrictedPatternAndReport importSource node
  end.

End Checker.

Definition restrictedPathMessages (options : list OptionsElement) : gmap string PathEntry :=
  foldl add_path ∅ (restrictedPaths options).

Definition restrictedPatternMatchers (options : list OptionsElement) : list PatternMatcher :=
  (λ patternObj,
    match patternObj with
    | CString s =>
        {| matcher := ignore_add (Val s); pattern := Val s; message := null |}
    | CObject o =>
        {| matcher := ignore_add (cfg_pattern o);
           pattern := cfg_pattern o;
           message := cfg_message o |}
    end) <$> restrictedPatterns options.

Definition create (options : list OptionsElement) : Listeners :=
  if (length (restrictedPaths options) =? 0)%nat
     && (length (restrictedPatterns options) =? 0)%nat
  then
    {| on_ImportDeclaration := None;
       on_ExportNamedDeclaration := None;
       on_ExportAllDeclaration := None |}
  else
    let checkNode :=
      checkNode (restrictedPathMessages options) (restrictedPatternMatchers options) in
    {| on_ImportDeclaration := Some checkNode;
       on_ExportNamedDeclaration := Some (λ node,
         if bool_decide (is_Some (source node)) then checkNode node else mret tt);
       on_ExportAllDeclaration := Some checkNode |}.

(** Modelled from the spec: the host driver that walks the statements of
    a file in source order and calls, for each, the listener registered
    for its kind (section 2 and section 6 of the specification; the
    driver is not part of the rule's file). *)
Definition visit (listeners : Listeners) (node : Node) : Eff unit :=
  let listener :=
    match node_type node with
    | ImportDeclaration => on_ImportDeclaration listeners
    | ExportNamedDeclaration => on_ExportNamedDeclaration listeners
    | ExportAllDeclaration => on_ExportAllDeclaration listeners
    end in
  match listener with
  | Some f => f node
  | None => mret tt
  end.

(** Modelled from the spec: one analysis session, [create] once and then
    one visit per statement. *)
Definition lint (options : list OptionsElement) (program : list Node)
    : Completion unit * list Report :=
  forEach program (visit (create options)) [].

End Rule.

(** ** What the path check is expected to report *)

(** The reports for the occurrences of the restricted names, name by name
    in the order of the rule and, for one name, occurrence by occurrence in
    the order of the statement. *)
Definition importName_reports (importSource : string) (customMessage : JsOpt string)
    (node : Node) (restricted : list string)
    (importNames : gmap string (list SpecifierData)) : list Report :=
  restricted ≫= λ importName,
    importName_report importSource customMessage node importName
      <$> default [] (importNames !! importName).

(** The report for a namespace import or an export-all, placed at the first
    occurrence under the key ["*"]. *)
Definition everything_reports (importSource : string) (customMessage : JsOpt string)
    (node : Node) (restricted : list string)
    (importNames : gmap string (list SpecifierData)) : list Report :=
  match importNames !! "*" with
  | Some (specifierData :: _) =>
      [everything_report importSource customMessage restricted node specifierData]
  | _ => []
  end.

Definition is_everything (r : Report) : bool :=
  bool_decide (messageId r = messages.everything
               ∨ messageId r = messages.everythingWithCustomMessage).

Definition is_importName (r : Report) : bool :=
  bool_decide (messageId r = messages.importName
               ∨ messageId r = messages.importNameWithCustomMessage).

Definition is_path (r : Report) : bool :=
  bool_decide (messageId r = messages.path
               ∨ messageId r = messages.pathWithCustomMessage).

(** The reports of the kind [importName] that are for the name [n]. *)
Definition names_importName (n : string) (r : Report) : Prop :=
  is_importName r ∧ data_importName (data r) = Some n.

Global Instance names_importName_dec n r : Decision (names_importName n r).
Proof. unfold names_importName. apply _. Defined.

(** The occurrences that the specifiers of a statement give to a key, in
    the order of the statement. *)
Definition occurrences_of (key : string) (l : list Specifier) : list SpecifierData :=
  (λ specifier, {| sd_loc := spec_loc specifier |})
    <$> filter (λ specifier, specifier_name specifier = Val key) l.

(** What one specifier adds under a key. *)
Definition added_by (key : string) (s : Specifier) : list SpecifierData :=
  if decide (specifier_name s = Val key ∧ key ≠ "")
  then [ {| sd_loc := spec_loc s |} ] else [].

(** A key of the map [importNames] holds a list only once an occurrence
    was put under it. *)
Definition nonempty {A} (l : list A) : option (list A) :=
  match l with
  | [] => None
  | _ => Some l
  end.

(** The reports of the path check, when it completes. *)
Definition path_reports (table : gmap string PathEntry) (importSource : string)
    (node : Node) (importNames : gmap string (list SpecifierData)) : list Report :=
  match table !! importSource with
  | None => []
  | Some entry =>
      match entry_importNames entry with
      | Val restricted =>
          everything_reports importSource (entry_message entry) node restricted importNames
          ++ importName_reports importSource (entry_message entry) node restricted importNames
      | _ => [path_report importSource (entry_message entry) node]
      end
  end.

(** The key and the value that a configured path gives to the table. *)
Definition path_key (e : OptionsElement) : string :=
  match is_string e with
  | Some s => s
  | None => to_key (elem_name e)
  end.

Definition path_entry (e : OptionsElement) : PathEntry :=
  match is_string e with
  | Some _ => {| entry_message := null; entry_importNames := undefined |}
  | None => {| entry_message := elem_message e; entry_importNames := elem_importNames e |}
  end.

Definition no_listeners : Listeners :=
  {| on_ImportDeclaration := None;
     on_ExportNamedDeclaration := None;
     on_ExportAllDeclaration := None |}.

(** ** An environment to run the rule on examples *)

Fixpoint trim_start (s : string) : string :=
  match s with
  | String c s' => if Ascii.is_space c then trim_start s' else s
  | EmptyString => EmptyString
  end.

(** [String.prototype.trim] on a string whose white space is ASCII. *)
Definition ascii_trim (s : string) : string :=
  String.rev (trim_start (String.rev (trim_start s))).

(** A matcher for the examples: a pattern that ends in [*] matches the
    paths that start with what precedes the star, any other pattern matches
    the path equal to it, and no pattern matches nothing. *)
Definition example_ignore (p : JsOpt string) (path : string) : bool :=
  match p with
  | Val pat =>
      match String.rev pat with
      | String "*"%char r => String.prefix (String.rev r) path
      | _ => String.eqb pat path
      end
  | _ => false
  end.

Definition at_ (l c l' c' : nat) : SourceLocation :=
  {| loc_start := {| line := l; column := c |};
     loc_end := {| line := l'; column := c' |} |}.

Definition named (imported_name local_name : string) (where_ : SourceLocation) : Specifier :=
  {| spec_type := ImportSpecifier;
     imported := Some {| id_name := imported_name |};
     local := Some {| id_name := local_name |};
     spec_loc := where_ |}.

(** [import { a, b as c, a as d } from " mod "] *)
Definition example_import : Node :=
  {| node_type := ImportDeclaration;
     source := Some " mod ";
     specifiers := Some [named "a" "a" (at_ 1 9 1 10);
                         named "b" "c" (at_ 1 12 1 18);
                         named "a" "d" (at_ 1 20 1 26)];
     tokens := [];
     node_loc := at_ 1 0 1 41 |}.

(** [import * as ns from "mod"] *)
Definition example_namespace : Node :=
  {| node_type := ImportDeclaration;
     source := Some "mod";
     specifiers := Some [ {| spec_type := ImportNamespaceSpecifier;
                             imported := None;
                             local := Some {| id_name := "ns" |};
                             spec_loc := at_ 1 7 1 14 |} ];
     tokens := [];
     node_loc := at_ 1 0 1 26 |}.

(** [export * from "mod"] *)
Definition example_export_all : Node :=
  {| node_type := ExportAllDeclaration;
     source := Some "mod";
     specifiers := None;
     tokens := [ {| token_value := "export"; token_loc := at_ 1 0 1 6 |};
                 {| token_value := "*"; token_loc := at_ 1 7 1 8 |};
                 {| token_value := "from"; token_loc := at_ 1 9 1 13 |};
                 {| token_value := "mod"; token_loc := at_ 1 14 1 19 |} ];
     node_loc := at_ 1 0 1 19 |}.

(** ** Reading the reports and the configured patterns *)

(** The message ids whose template has the placeholder [customMessage]. *)
Definition is_custom (id : messages.Id) : bool :=
  match id with
  | messages.pathWithCustomMessage
  | messages.patternWithCustomMessage
  | messages.everythingWithCustomMessage
  | messages.importNameWithCustomMessage => true
  | _ => false
  end.

(** The message ids of the reports about one specifier or one token. *)
Definition about_specifier (id : messages.Id) : bool :=
  match id with
  | messages.everything
  | messages.everythingWithCustomMessage
  | messages.importName
  | messages.importNameWithCustomMessage => true
  | _ => false
  end.

(** A report that one of the four calls of [context.report] makes for the
    statement [n] and the source [src]. *)
Definition made_by_rule (src : string) (n : Node) (r : Report) : Prop :=
  (∃ msg, r = path_report src msg n)
  ∨ (∃ msg, r = pattern_report src msg n)
  ∨ (∃ msg names d, r = everything_report src msg names n d)
  ∨ (∃ msg name d, r = importName_report src msg n name d).

(** The pattern and the message that [restrictedPatternMatchers] reads off
    a configured pattern. *)
Definition item_pattern (item : ConfigItem) : JsOpt string :=
  match item with
  | CString s => Val s
  | CObject o => cfg_pattern o
  end.

Definition item_message (item : ConfigItem) : JsOpt string :=
  match item with
  | CString _ => null
  | CObject o => cfg_message o
  end.

(** [import "mod"] *)
Definition example_side_effect : Node :=
  {| node_type := ImportDeclaration;
     source := Some "mod";
     specifiers := Some [];
     tokens := [];
     node_loc := at_ 1 0 1 12 |}.

(** [export { a }] *)
Definition example_local_export : Node :=
  {| node_type := ExportNamedDeclaration;
     source := None;
     specifiers := Some [ {| spec_type := ExportSpecifier;
                             imported := None;
                             local := Some {| id_name := "a" |};
                             spec_loc := at_ 1 9 1 10 |} ];
     tokens := [];
     node_loc := at_ 1 0 1 12 |}.

(** [import d, * as ns from "mod"] *)
Definition example_default_namespace : Node :=
  {| node_type := ImportDeclaration;
     source := Some "mod";
     specifiers := Some [ {| spec_type := ImportDefaultSpecifier;
                             imported := None;
                             local := Some {| id_name := "d" |};
                             spec_loc := at_ 1 7 1 8 |};
                          {| spec_type := ImportNamespaceSpecifier;
                             imported := None;
                             local := Some {| id_name := "ns" |};
                             spec_loc := at_ 1 10 1 17 |} ];
     tokens := [];
     node_loc := at_ 1 0 1 29 |}.

(** * Properties *)

(** ** Effects *)

Section effects.

Context {A : Type}.

Lemma forEach_report (f : A → Report) (l : list A) (rs : list Report) :
  forEach l (λ x, report (f x)) rs = (Normal tt, rs ++ (f <$> l)).
Proof.
  revert rs. induction l as [|x l IH]; intros rs; simpl.
  - by rewrite app_nil_r.
  - unfold mbind, Eff_bind, report. rewrite IH.
    by rewrite <- app_assoc.
Qed.

Lemma find_none (p : A → bool) (l : list A) :
  Forall (λ y, p y = false) l → find l p = undefined.
Proof.
  induction 1 as [|y l Hy _ IH]; simpl; [done|]. by rewrite Hy.
Qed.

Lemma find_first (p : A → bool) (before : list A) (x : A) (after : list A) :
  Forall (λ y, p y = false) before →
  p x = true →
  find (before ++ x :: after) p = Val x.
Proof.
  intros Hbefore Hx.
  induction Hbefore as [|y l Hy _ IH]; simpl.
  - by rewrite Hx.
  - by rewrite Hy.
Qed.

End effects.

Lemma truthy_Val (s : string) : s ≠ "" → truthy (Val s) = true.
Proof.
  intros Hs. simpl. destruct (String.eqb_spec s ""); [contradiction|done].
Qed.

(** Under the schema of the options ([minLength: 1] for [message]) a
    message is truthy exactly when it is there. *)
Lemma truthy_message (m : JsOpt string) :
  m ≠ Val "" → truthy m = match m with Val _ => true | _ => false end.
Proof.
  destruct m as [| |s]; intros Hm; [done|done|].
  apply truthy_Val. congruence.
Qed.

(** ** The pattern check *)

(** C1, as the code has it: when the list of pattern matchers is not empty
    and no matcher matches the source, [find] gives [undefined], the test
    against [null] fails, and reading [message] of the absent result raises
    a [TypeError]; no report is made. *)
Theorem checkRestrictedPatternAndReport_no_match_throws
    (matchers : list PatternMatcher) (importSource : string) (node : Node)
    (rs : list Report) :
  matchers ≠ [] →
  Forall (λ m, matcher m importSource = false) matchers →
  checkRestrictedPatternAndReport matchers importSource node rs = (Throw TypeError, rs).
Proof.
  intros Hne Hnone. unfold checkRestrictedPatternAndReport.
  destruct matchers as [|m matchers]; [done|].
  simpl length. simpl Nat.eqb. cbv iota.
  by rewrite (find_none _ _ Hnone).
Qed.

Lemma checkRestrictedPatternAndReport_no_match_throws_witness :
  let matchers :=
    restrictedPatternMatchers example_ignore
      [OPathsAndPatterns undefined (Val [CString "foo/*"])] in
  matchers ≠ []
  ∧ Forall (λ m, matcher m "bar" = false) matchers
  ∧ checkRestrictedPatternAndReport matchers "bar" example_import []
    = (Throw TypeError, []).
Proof.
  assert (Hne : restrictedPatternMatchers example_ignore
                  [OPathsAndPatterns undefined (Val [CString "foo/*"])] ≠ [])
    by (vm_compute; discriminate).
  assert (Hnone : Forall (λ m, matcher m "bar" = false)
                    (restrictedPatternMatchers example_ignore
                       [OPathsAndPatterns undefined (Val [CString "foo/*"])]))
    by (repeat constructor).
  exact (conj Hne (conj Hnone
    (checkRestrictedPatternAndReport_no_match_throws _ "bar" example_import [] Hne Hnone))).
Defined.

(** C2: when some configured pattern matches the source, the pattern check
    makes exactly one report, for the first matching rule in the order of
    the configuration, with [patternWithCustomMessage] if that rule has a
    message and [patterns] otherwise, and with no location of its own, so
    at the statement. *)
Theorem checkRestrictedPatternAndReport_first_match
    (before : list PatternMatcher) (r : PatternMatcher) (after : list PatternMatcher)
    (importSource : string) (node : Node) (rs : list Report) :
  Forall (λ m, matcher m importSource = false) before →
  matcher r importSource = true →
  message r ≠ Val "" →
  checkRestrictedPatternAndReport (before ++ r :: after) importSource node rs
  = (Normal tt,
     rs ++ [ {| node := node;
                messageId := match message r with
                             | Val _ => messages.patternWithCustomMessage
                             | _ => messages.patterns
                             end;
                loc := None;
                data := {| data_importSource := importSource;
                           data_importNames := None;
                           data_customMessage := message r;
                           data_importName := None |} |} ]).
Proof.
  intros Hbefore Hr Hmsg. unfold checkRestrictedPatternAndReport.
  replace (length (before ++ r :: after) =? 0)%nat with false
    by (symmetry; apply Nat.eqb_neq; rewrite length_app; simpl; lia).
  rewrite (find_first _ _ _ _ Hbefore Hr). simpl.
  unfold report, pattern_report. rewrite (truthy_message _ Hmsg).
  by destruct (message r).
Qed.

Lemma checkRestrictedPatternAndReport_first_match_witness :
  let first := {| matcher := example_ignore (Val "foo/*");
                  pattern := Val "foo/*"; message := undefined |} in
  let second := {| matcher := example_ignore (Val "foo/bar");
                   pattern := Val "foo/bar"; message := Val "use baz" |} in
  checkRestrictedPatternAndReport [first; second] "foo/bar" example_import []
  = (Normal tt, [pattern_report "foo/bar" undefined example_import]).
Proof.
  intros first second.
  apply (checkRestrictedPatternAndReport_first_match [] first [second]
           "foo/bar" example_import []).
  - constructor.
  - reflexivity.
  - discriminate.
Defined.

(** ** The path check *)

Section path_check.

Context (table : gmap string PathEntry).
Context (importSource : string) (customMessage : JsOpt string) (node : Node).

Lemma forEach_importNames (restricted : list string)
    (importNames : gmap string (list SpecifierData)) (rs : list Report) :
  forEach restricted (λ importName,
    match importNames !! importName with
    | Some specifiers =>
        forEach specifiers (λ specifier,
          report (importName_report importSource customMessage node
                    importName specifier))
    | None => mret tt
    end) rs
  = (Normal tt,
     rs ++ importName_reports importSource customMessage node restricted importNames).
Proof.
  unfold importName_reports.
  revert rs. induction restricted as [|n restricted IH]; intros rs; simpl.
  - by rewrite app_nil_r.
  - unfold mbind at 1, Eff_bind.
    destruct (importNames !! n) as [specifiers|]; simpl.
    + rewrite forEach_report, IH. by rewrite <- app_assoc.
    + unfold mret, Eff_ret. by rewrite IH.
Qed.

Lemma checkRestrictedPathAndReport_absent
    (importNames : gmap string (list SpecifierData)) (rs : list Report) :
  table !! importSource = None →
  checkRestrictedPathAndReport table importSource importNames node rs = (Normal tt, rs).
Proof. intros Hno. unfold checkRestrictedPathAndReport. by rewrite Hno. Qed.

Lemma checkRestrictedPathAndReport_whole (entry : PathEntry)
    (importNames : gmap string (list SpecifierData)) (rs : list Report) :
  table !! importSource = Some entry →
  (∀ names, entry_importNames entry ≠ Val names) →
  checkRestrictedPathAndReport table importSource importNames node rs
  = (Normal tt, rs ++ [path_report importSource (entry_message entry) node]).
Proof.
  intros Hentry Hwhole. unfold checkRestrictedPathAndReport. rewrite Hentry.
  destruct (entry_importNames entry) as [| |names]; try done.
  by destruct (Hwhole names).
Qed.

Lemma checkRestrictedPathAndReport_names (restricted : list string)
    (importNames : gmap string (list SpecifierData)) (rs : list Report) :
  table !! importSource
    = Some {| entry_message := customMessage; entry_importNames := Val restricted |} →
  importNames !! "*" ≠ Some [] →
  checkRestrictedPathAndReport table importSource importNames node rs
  = (Normal tt,
     rs ++ everything_reports importSource customMessage node restricted importNames
        ++ importName_reports importSource customMessage node restricted importNames).
Proof.
  intros Hentry Hstar. unfold checkRestrictedPathAndReport, everything_reports.
  rewrite Hentry. simpl.
  destruct (importNames !! "*") as [[|d rest]|]; [done| |].
  - unfold mbind, Eff_bind, report. simpl.
    rewrite forEach_importNames. by rewrite <- app_assoc.
  - unfold mbind, Eff_bind, mret, Eff_ret.
    by rewrite forEach_importNames.
Qed.

Lemma importName_reports_kind (restricted : list string)
    (importNames : gmap string (list SpecifierData)) :
  Forall (λ r, is_importName r ∧ ¬ is_everything r ∧ ¬ is_path r)
    (importName_reports importSource customMessage node restricted importNames).
Proof.
  unfold importName_reports. apply Forall_forall. intros r Hr.
  apply list_elem_of_bind in Hr as (n & Hr & _).
  apply list_elem_of_fmap in Hr as (d & -> & _).
  unfold is_importName, is_everything, is_path, importName_report. simpl.
  destruct (truthy customMessage);
    (split; [apply bool_decide_pack; by auto|]);
    split; intros H%bool_decide_unpack; by destruct H.
Qed.

Lemma everything_report_kind (restricted : list string) (d : SpecifierData) :
  is_everything (everything_report importSource customMessage restricted node d).
Proof.
  unfold is_everything, everything_report. simpl.
  apply bool_decide_pack. destruct (truthy customMessage); by auto.
Qed.

End path_check.

Lemma filter_none {A} (P : A → Prop) `{∀ x, Decision (P x)} (l : list A) :
  Forall (λ x, ¬ P x) l → filter P l = [].
Proof.
  induction 1 as [|x l Hx _ IH]; [done|].
  by rewrite filter_cons_False.
Qed.

Lemma filter_all {A} (P : A → Prop) `{∀ x, Decision (P x)} (l : list A) :
  Forall P l → filter P l = l.
Proof.
  induction 1 as [|x l Hx _ IH]; [done|].
  rewrite filter_cons_True by done. by rewrite IH.
Qed.

(** C3: a source found in the table under a rule without [importNames]
    gets exactly one report, [pathWithCustomMessage] if the rule has a
    message and [path] otherwise, with no location of its own (so at the
    statement), whatever names the statement imports; a source that is not
    in the table gets no report from the path check. *)
Theorem checkRestrictedPathAndReport_whole_path
    (table : gmap string PathEntry) (importSource : string)
    (importNames : gmap string (list SpecifierData)) (node : Node) (rs : list Report) :
  (∀ entry,
     table !! importSource = Some entry →
     (∀ names, entry_importNames entry ≠ Val names) →
     entry_message entry ≠ Val "" →
     checkRestrictedPathAndReport table importSource importNames node rs
     = (Normal tt,
        rs ++ [ {| node := node;
                   messageId := match entry_message entry with
                                | Val _ => messages.pathWithCustomMessage
                                | _ => messages.path
                                end;
                   loc := None;
                   data := {| data_importSource := importSource;
                              data_importNames := None;
                              data_customMessage := entry_message entry;
                              data_importName := None |} |} ]))
  ∧ (table !! importSource = None →
     checkRestrictedPathAndReport table importSource importNames node rs
     = (Normal tt, rs)).
Proof.
  split.
  - intros entry Hentry Hwhole Hmsg.
    rewrite (checkRestrictedPathAndReport_whole _ _ _ _ _ _ Hentry Hwhole).
    unfold path_report. rewrite (truthy_message _ Hmsg).
    by destruct (entry_message entry).
  - apply checkRestrictedPathAndReport_absent.
Qed.

Lemma checkRestrictedPathAndReport_whole_path_witness :
  let table := restrictedPathMessages
                 [OItem (CString "mod");
                  OItem (CObject {| cfg_name := Val "other"; cfg_pattern := undefined;
                                    cfg_message := Val "use mod";
                                    cfg_importNames := undefined |})] in
  let importNames := {[ "a" := [ {| sd_loc := at_ 1 9 1 10 |};
                                 {| sd_loc := at_ 1 20 1 26 |} ];
                        "b" := [ {| sd_loc := at_ 1 12 1 18 |} ] ]} in
  checkRestrictedPathAndReport table "mod" importNames example_import []
    = (Normal tt, [path_report "mod" null example_import])
  ∧ checkRestrictedPathAndReport table "other" importNames example_import []
    = (Normal tt, [path_report "other" (Val "use mod") example_import])
  ∧ checkRestrictedPathAndReport table "fs" importNames example_import []
    = (Normal tt, []).
Proof.
  intros table importNames. split; [|split].
  - apply (proj1 (checkRestrictedPathAndReport_whole_path
                    table "mod" importNames example_import [])
             {| entry_message := null; entry_importNames := undefined |});
      [reflexivity | discriminate | discriminate].
  - apply (proj1 (checkRestrictedPathAndReport_whole_path
                    table "other" importNames example_import [])
             {| entry_message := Val "use mod"; entry_importNames := undefined |});
      [reflexivity | discriminate | discriminate].
  - apply (proj2 (checkRestrictedPathAndReport_whole_path
                    table "fs" importNames example_import [])).
    reflexivity.
Defined.

(** C4: for a rule with [importNames], a statement whose names contain the
    key ["*"] gets exactly one [everything] report (or
    [everythingWithCustomMessage]), placed at the first occurrence under
    ["*"] and carrying the whole list of restricted names; the later
    occurrences under ["*"] add no report of that kind. *)
Theorem checkRestrictedPathAndReport_everything
    (table : gmap string PathEntry) (importSource : string)
    (customMessage : JsOpt string) (restricted : list string)
    (importNames : gmap string (list SpecifierData)) (node : Node) (rs : list Report)
    (first : SpecifierData) (later : list SpecifierData) :
  table !! importSource
    = Some {| entry_message := customMessage; entry_importNames := Val restricted |} →
  importNames !! "*" = Some (first :: later) →
  ∃ new,
    checkRestrictedPathAndReport table importSource importNames node rs
    = (Normal tt, rs ++ new)
    ∧ filter is_everything new
      = [ {| node := node;
             messageId := if truthy customMessage
                          then messages.everythingWithCustomMessage
                          else messages.everything;
             loc := Some (sd_loc first);
             data := {| data_importSource := importSource;
                        data_importNames := Some restricted;
                        data_customMessage := customMessage;
                        data_importName := None |} |} ].
Proof.
  intros Hentry Hstar. eexists. split.
  - apply (checkRestrictedPathAndReport_names _ _ _ _ _ _ _ Hentry).
    by rewrite Hstar.
  - unfold everything_reports. rewrite Hstar. simpl.
    rewrite filter_cons_True by apply everything_report_kind.
    rewrite filter_none; [done|].
    eapply Forall_impl; [apply importName_reports_kind|].
    intros r (_ & Hr & _). exact Hr.
Qed.

Lemma checkRestrictedPathAndReport_everything_witness :
  let table := restrictedPathMessages
                 [OItem (CObject {| cfg_name := Val "mod"; cfg_pattern := undefined;
                                    cfg_message := undefined;
                                    cfg_importNames := Val ["a"; "*"] |})] in
  let importNames := {[ "*" := [ {| sd_loc := at_ 1 7 1 14 |};
                                 {| sd_loc := at_ 2 7 2 14 |} ] ]} in
  ∃ new,
    checkRestrictedPathAndReport table "mod" importNames example_namespace []
    = (Normal tt, [] ++ new)
    ∧ filter is_everything new
      = [everything_report "mod" undefined ["a"; "*"] example_namespace
           {| sd_loc := at_ 1 7 1 14 |}].
Proof.
  intros table importNames.
  apply (checkRestrictedPathAndReport_everything table "mod" undefined ["a"; "*"]
           importNames example_namespace [] _ [ {| sd_loc := at_ 2 7 2 14 |} ]);
    reflexivity.
Defined.

(** C10: a rule whose [importNames] is the empty list is name-scoped: the
    path check makes no [path] report and no [importName] report for its
    source, and makes the one [everything] report when the statement has an
    occurrence under ["*"]. *)
Theorem checkRestrictedPathAndReport_empty_importNames
    (table : gmap string PathEntry) (importSource : string)
    (customMessage : JsOpt string)
    (importNames : gmap string (list SpecifierData)) (node : Node) (rs : list Report) :
  table !! importSource
    = Some {| entry_message := customMessage; entry_importNames := Val [] |} →
  importNames !! "*" ≠ Some [] →
  checkRestrictedPathAndReport table importSource importNames node rs
  = (Normal tt,
     rs ++ match importNames !! "*" with
           | Some (first :: _) =>
               [ {| node := node;
                    messageId := if truthy customMessage
                                 then messages.everythingWithCustomMessage
                                 else messages.everything;
                    loc := Some (sd_loc first);
                    data := {| data_importSource := importSource;
                               data_importNames := Some [];
                               data_customMessage := customMessage;
                               data_importName := None |} |} ]
           | _ => []
           end).
Proof.
  intros Hentry Hstar.
  rewrite (checkRestrictedPathAndReport_names _ _ _ _ _ _ _ Hentry Hstar).
  unfold everything_reports, importName_reports. simpl. by rewrite app_nil_r.
Qed.

Lemma checkRestrictedPathAndReport_empty_importNames_witness :
  let table := restrictedPathMessages
                 [OItem (CObject {| cfg_name := Val "mod"; cfg_pattern := undefined;
                                    cfg_message := undefined;
                                    cfg_importNames := Val [] |})] in
  checkRestrictedPathAndReport table "mod"
    {[ "*" := [ {| sd_loc := at_ 1 7 1 14 |} ] ]} example_namespace []
    = (Normal tt,
       [everything_report "mod" undefined [] example_namespace
          {| sd_loc := at_ 1 7 1 14 |}])
  ∧ checkRestrictedPathAndReport table "mod"
      {[ "a" := [ {| sd_loc := at_ 1 9 1 10 |} ] ]} example_import []
    = (Normal tt, []).
Proof.
  intros table. split.
  - etrans;
      [apply (checkRestrictedPathAndReport_empty_importNames table "mod" undefined
                {[ "*" := [ {| sd_loc := at_ 1 7 1 14 |} ] ]} example_namespace []);
       [reflexivity | discriminate]
      |reflexivity].
  - etrans;
      [apply (checkRestrictedPathAndReport_empty_importNames table "mod" undefined
                {[ "a" := [ {| sd_loc := at_ 1 9 1 10 |} ] ]} example_import []);
       [reflexivity | discriminate]
      |reflexivity].
Defined.

(** ** The names of a statement *)

Section extractor.

Implicit Types (m : gmap string (list SpecifierData)) (s : Specifier)
  (l : list Specifier) (key : string).

Lemma add_specifier_lookup m s key :
  default [] (add_specifier m s !! key) = default [] (m !! key) ++ added_by key s.
Proof.
  unfold add_specifier, added_by.
  destruct (specifier_name s) as [| |k] eqn:Hname.
  - rewrite decide_False by (by intros [? _]). by rewrite app_nil_r.
  - rewrite decide_False by (by intros [? _]). by rewrite app_nil_r.
  - simpl. destruct (String.eqb_spec k "") as [->|Hk]; simpl.
    + rewrite decide_False by (intros [[= <-] ?]; done). by rewrite app_nil_r.
    + destruct (decide (k = key)) as [->|Hne].
      * rewrite decide_True by done.
        destruct (m !! key) as [occurrences|]; by rewrite lookup_insert_eq.
      * rewrite decide_False by (intros [[= ?] _]; done).
        rewrite app_nil_r.
        destruct (m !! k) as [occurrences|]; by rewrite lookup_insert_ne.
Qed.

Lemma add_specifier_nonempty m s :
  (∀ key, m !! key ≠ Some []) → ∀ key, add_specifier m s !! key ≠ Some [].
Proof.
  intros Hm key. unfold add_specifier.
  destruct (specifier_name s) as [| |k]; [apply Hm|apply Hm|].
  destruct (truthy (Val k)); [|apply Hm].
  destruct (m !! k) as [occurrences|];
    (destruct (decide (k = key)) as [->|Hne];
     [rewrite lookup_insert_eq|by rewrite lookup_insert_ne]).
  - intros [= H]. by destruct occurrences.
  - done.
Qed.

Lemma occurrences_of_cons key s l :
  key ≠ "" → occurrences_of key (s :: l) = added_by key s ++ occurrences_of key l.
Proof.
  intros Hkey. unfold occurrences_of, added_by. rewrite filter_cons.
  destruct (decide (specifier_name s = Val key)) as [Hs|Hs].
  - by rewrite decide_True.
  - by rewrite decide_False by (by intros [? _]).
Qed.

Lemma foldl_add_specifier_lookup l m key :
  key ≠ "" →
  default [] (foldl add_specifier m l !! key)
  = default [] (m !! key) ++ occurrences_of key l.
Proof.
  intros Hkey. revert m. induction l as [|s l IH]; intros m; simpl.
  - by rewrite app_nil_r.
  - rewrite IH, add_specifier_lookup, occurrences_of_cons by done.
    by rewrite <- app_assoc.
Qed.

Lemma foldl_add_specifier_empty_key l m :
  foldl add_specifier m l !! "" = m !! "".
Proof.
  revert m. induction l as [|s l IH]; intros m; simpl; [done|].
  rewrite IH. unfold add_specifier.
  destruct (specifier_name s) as [| |k]; [done|done|]. simpl.
  destruct (String.eqb_spec k "") as [->|Hk]; simpl; [done|].
  destruct (m !! k); by rewrite lookup_insert_ne.
Qed.

Lemma foldl_add_specifier_nonempty l m :
  (∀ key, m !! key ≠ Some []) → ∀ key, foldl add_specifier m l !! key ≠ Some [].
Proof.
  revert m. induction l as [|s l IH]; intros m Hm; simpl; [done|].
  apply IH. by apply add_specifier_nonempty.
Qed.

Lemma default_nonempty (o : option (list SpecifierData)) :
  o ≠ Some [] → o = nonempty (default [] o).
Proof. destruct o as [[|d occurrences]|]; done. Qed.

(** The map built from the specifiers of a statement, key by key. *)
Lemma importNames_lookup l key :
  key ≠ "" →
  foldl add_specifier ∅ l !! key = nonempty (occurrences_of key l).
Proof.
  intros Hkey.
  rewrite (default_nonempty (foldl add_specifier ∅ l !! key)).
  - rewrite foldl_add_specifier_lookup by done. by rewrite lookup_empty.
  - apply foldl_add_specifier_nonempty. intros k. by rewrite lookup_empty.
Qed.

Lemma collect_importNames_specifiers (node : Node) l (rs : list Report) :
  node_type node ≠ ExportAllDeclaration →
  specifiers node = Some l →
  collect_importNames node rs = (Normal (foldl add_specifier ∅ l), rs).
Proof.
  intros Htype Hl. unfold collect_importNames. rewrite Hl.
  by destruct (node_type node).
Qed.

Lemma collect_importNames_export_all (node : Node) (starToken : Token)
    (rs : list Report) :
  node_type node = ExportAllDeclaration →
  getFirstToken node 1 = Some starToken →
  collect_importNames node rs
  = (Normal {[ "*" := [ {| sd_loc := token_loc starToken |} ] ]}, rs).
Proof.
  intros Htype Hstar. unfold collect_importNames. by rewrite Htype, Hstar.
Qed.

(** The map that [checkNode] builds never holds an empty list, so the
    path check reads a first occurrence under ["*"] whenever the key is
    there. *)
Lemma collect_importNames_nonempty (node : Node) m (rs rs' : list Report) :
  collect_importNames node rs = (Normal m, rs') →
  rs' = rs ∧ ∀ key, m !! key ≠ Some [].
Proof.
  unfold collect_importNames.
  destruct (node_type node).
  1,2: unfold mret, Eff_ret;
    destruct (specifiers node) as [l|]; intros [= <- <-]; (split; [done|]);
    try apply foldl_add_specifier_nonempty; intros key; by rewrite lookup_empty.
  unfold mret, Eff_ret, throw.
  destruct (getFirstToken node 1) as [starToken|]; [|done].
  intros [= <- <-]. split; [done|]. intros key.
  destruct (decide (key = "*")) as [->|Hne].
  - by rewrite lookup_singleton_eq.
  - by rewrite lookup_singleton_ne.
Qed.

End extractor.

(** ** One report per occurrence of a restricted name *)

Section per_occurrence.

Context (importSource : string) (customMessage : JsOpt string) (node : Node).
Context (importNames : gmap string (list SpecifierData)).

Lemma importName_reports_cons (n : string) (restricted : list string) :
  importName_reports importSource customMessage node (n :: restricted) importNames
  = (importName_report importSource customMessage node n
       <$> default [] (importNames !! n))
    ++ importName_reports importSource customMessage node restricted importNames.
Proof. unfold importName_reports. by rewrite bind_cons. Qed.

Lemma importName_report_names (n : string) (d : SpecifierData) :
  names_importName n (importName_report importSource customMessage node n d).
Proof.
  split; [|done].
  unfold is_importName, importName_report. simpl.
  apply bool_decide_pack. destruct (truthy customMessage); by auto.
Qed.

Lemma filter_importName_reports_other (n : string) (restricted : list string) :
  n ∉ restricted →
  filter (names_importName n)
    (importName_reports importSource customMessage node restricted importNames) = [].
Proof.
  intros Hn. apply filter_none, Forall_forall. intros r Hr [_ Hname].
  apply list_elem_of_bind in Hr as (n' & Hr & Hn').
  apply list_elem_of_fmap in Hr as (d & -> & _).
  simpl in Hname. by injection Hname as ->.
Qed.

Lemma filter_importName_reports (n : string) (restricted : list string) :
  NoDup restricted →
  n ∈ restricted →
  filter (names_importName n)
    (importName_reports importSource customMessage node restricted importNames)
  = importName_report importSource customMessage node n
      <$> default [] (importNames !! n).
Proof.
  induction 1 as [|n' restricted Hfresh Hnodup IH]; intros Hn.
  - by apply elem_of_nil in Hn.
  - rewrite importName_reports_cons, filter_app.
    destruct (decide (n' = n)) as [->|Hne].
    + rewrite (filter_importName_reports_other n restricted Hfresh), app_nil_r.
      apply filter_all, Forall_forall. intros r Hr.
      apply list_elem_of_fmap in Hr as (d & -> & _).
      apply importName_report_names.
    + apply elem_of_cons in Hn as [->|Hn]; [done|].
      rewrite IH by done.
      rewrite filter_none; [done|].
      apply Forall_forall. intros r Hr [_ Hname].
      apply list_elem_of_fmap in Hr as (d & -> & _).
      simpl in Hname. by injection Hname.
Qed.

Lemma filter_importName_reports_listed (n : string) (restricted : list string) :
  filter (names_importName n)
    (importName_reports importSource customMessage node restricted importNames)
  = filter (λ n', n' = n) restricted ≫= λ _,
      importName_report importSource customMessage node n
        <$> default [] (importNames !! n).
Proof.
  induction restricted as [|n' restricted IH]; [done|].
  rewrite importName_reports_cons, filter_app, IH.
  destruct (decide (n' = n)) as [->|Hne].
  - rewrite (filter_cons_True (λ n', n' = n)) by done. rewrite bind_cons.
    f_equal. apply filter_all, Forall_forall. intros r Hr.
    apply list_elem_of_fmap in Hr as (d & -> & _).
    apply importName_report_names.
  - rewrite (filter_cons_False (λ n', n' = n)) by done.
    rewrite filter_none; [done|].
    apply Forall_forall. intros r Hr [_ Hname].
    apply list_elem_of_fmap in Hr as (d & -> & _).
    simpl in Hname. by injection Hname.
Qed.

Lemma filter_everything_reports (n : string) (restricted : list string) :
  filter (names_importName n)
    (everything_reports importSource customMessage node restricted importNames) = [].
Proof.
  unfold everything_reports.
  destruct (importNames !! "*") as [[|d rest]|]; [done| |done].
  by rewrite filter_cons_False by (by intros [_ ?]).
Qed.

End per_occurrence.

Lemma occurrences_of_empty_key (l : list Specifier) :
  Forall (λ s, truthy (specifier_name s)) l → occurrences_of "" l = [].
Proof.
  intros Hl. unfold occurrences_of. rewrite filter_none; [done|].
  eapply Forall_impl; [exact Hl|]. intros s Hs Hname. simpl in *. by rewrite Hname in Hs.
Qed.

(** C5, as amended: for a rule with [importNames] and a name that is a key
    of the names of the statement, the path check makes, once for each time
    the name is written in [importNames], one [importName] report (or
    [importNameWithCustomMessage]) for each occurrence in the list of that
    name, each at the location of its occurrence, in the order of the list;
    so when no name is written twice in the rule, a restricted name gets
    exactly one report for each occurrence.  And the map that [checkNode]
    builds from the specifiers of a statement keeps, under every key, the
    locations of all the specifiers of that name in the order of the
    statement, so that every specifier is found under its name. *)
Theorem restricted_names_per_occurrence :
  (∀ (table : gmap string PathEntry) (importSource : string)
     (customMessage : JsOpt string) (restricted : list string)
     (importNames : gmap string (list SpecifierData)) (node : Node)
     (rs : list Report),
     table !! importSource
       = Some {| entry_message := customMessage; entry_importNames := Val restricted |} →
     importNames !! "*" ≠ Some [] →
     ∃ new,
       checkRestrictedPathAndReport table importSource importNames node rs
       = (Normal tt, rs ++ new)
       ∧ ∀ importName occurrences,
           importNames !! importName = Some occurrences →
           let reports :=
             (λ occurrence,
                {| node := node;
                   messageId := if truthy customMessage
                                then messages.importNameWithCustomMessage
                                else messages.importName;
                   loc := Some (sd_loc occurrence);
                   data := {| data_importSource := importSource;
                              data_importNames := None;
                              data_customMessage := customMessage;
                              data_importName := Some importName |} |})
               <$> occurrences in
           filter (names_importName importName) new
           = (filter (λ n, n = importName) restricted ≫= λ _, reports)
           ∧ (NoDup restricted →
              importName ∈ restricted →
              filter (names_importName importName) new = reports))
  ∧ (∀ (node : Node) (l : list Specifier) (rs : list Report),
       node_type node ≠ ExportAllDeclaration →
       specifiers node = Some l →
       Forall (λ s, truthy (specifier_name s)) l →
       ∃ importNames,
         collect_importNames node rs = (Normal importNames, rs)
         ∧ (∀ key, default [] (importNames !! key) = occurrences_of key l)
         ∧ (∀ s, s ∈ l →
              ∃ key occurrences,
                specifier_name s = Val key
                ∧ importNames !! key = Some occurrences
                ∧ {| sd_loc := spec_loc s |} ∈ occurrences)).
Proof.
  split.
  - intros table importSource customMessage restricted importNames node rs
      Hentry Hstar.
    eexists. split.
    + by apply (checkRestrictedPathAndReport_names _ _ _ _ _ _ _ Hentry).
    + intros importName occurrences Hocc reports. rewrite filter_app.
      rewrite (filter_everything_reports importSource customMessage node importNames
                 importName restricted).
      split.
      * rewrite (filter_importName_reports_listed importSource customMessage node
                   importNames importName restricted).
        by rewrite Hocc.
      * intros Hnodup Hin.
        rewrite (filter_importName_reports importSource customMessage node importNames
                   importName restricted Hnodup Hin).
        by rewrite Hocc.
  - intros node l rs Htype Hl Hnames.
    exists (foldl add_specifier ∅ l).
    assert (Hkeys : ∀ key,
      default [] (foldl add_specifier ∅ l !! key) = occurrences_of key l).
    { intros key. destruct (decide (key = "")) as [->|Hkey].
      - rewrite foldl_add_specifier_empty_key, lookup_empty.
        by rewrite occurrences_of_empty_key.
      - rewrite foldl_add_specifier_lookup by done. by rewrite lookup_empty. }
    split; [by apply collect_importNames_specifiers|]. split; [exact Hkeys|].
    intros s Hs.
    assert (Hname : truthy (specifier_name s))
      by (by apply (proj1 (Forall_forall _ _) Hnames)).
    destruct (specifier_name s) as [| |key] eqn:Hkey; [done|done|].
    assert (Hocc : {| sd_loc := spec_loc s |} ∈ occurrences_of key l).
    { unfold occurrences_of.
      apply (list_elem_of_fmap_2 (λ specifier, {| sd_loc := spec_loc specifier |})).
      by apply list_elem_of_filter. }
    rewrite <- Hkeys in Hocc.
    destruct (foldl add_specifier ∅ l !! key) as [occurrences|] eqn:Hlookup.
    + by exists key, occurrences.
    + by apply elem_of_nil in Hocc.
Qed.

Lemma restricted_names_per_occurrence_witness :
  let table := restrictedPathMessages
                 [OItem (CObject {| cfg_name := Val "mod"; cfg_pattern := undefined;
                                    cfg_message := undefined;
                                    cfg_importNames := Val ["a"] |})] in
  let first := {| sd_loc := at_ 1 9 1 10 |} in
  let second := {| sd_loc := at_ 1 20 1 26 |} in
  (∃ importNames,
     collect_importNames example_import [] = (Normal importNames, [])
     ∧ default [] (importNames !! "a") = [first; second]
     ∧ default [] (importNames !! "b") = [ {| sd_loc := at_ 1 12 1 18 |} ])
  ∧ (∃ new,
       checkRestrictedPathAndReport table "mod"
         {[ "a" := [first; second]; "b" := [ {| sd_loc := at_ 1 12 1 18 |} ] ]}
         example_import []
       = (Normal tt, [] ++ new)
       ∧ filter (names_importName "a") new
         = [importName_report "mod" undefined example_import "a" first;
            importName_report "mod" undefined example_import "a" second]).
Proof.
  intros table first second. split.
  - destruct (proj2 restricted_names_per_occurrence example_import
                [named "a" "a" (at_ 1 9 1 10);
                 named "b" "c" (at_ 1 12 1 18);
                 named "a" "d" (at_ 1 20 1 26)] [])
      as (importNames & Hrun & Hkeys & _).
    + discriminate.
    + reflexivity.
    + repeat constructor.
    + exists importNames. split; [exact Hrun|].
      split; [exact (Hkeys "a")|exact (Hkeys "b")].
  - destruct (proj1 restricted_names_per_occurrence table "mod" undefined ["a"]
                {[ "a" := [first; second]; "b" := [ {| sd_loc := at_ 1 12 1 18 |} ] ]}
                example_import [])
      as (new & Hrun & Hfilter).
    + reflexivity.
    + by vm_compute.
    + exists new. split; [exact Hrun|].
      apply (proj2 (Hfilter "a" [first; second] eq_refl));
        [apply NoDup_singleton|constructor].
Defined.

(** C5, as first stated, fails when the rule writes a name twice: for
    [importNames: ["a", "a"]] and one occurrence of ["a"], the path check
    makes two reports for that occurrence. *)
Lemma restricted_names_per_occurrence_counterexample :
  let table := restrictedPathMessages
                 [OItem (CObject {| cfg_name := Val "mod"; cfg_pattern := undefined;
                                    cfg_message := undefined;
                                    cfg_importNames := Val ["a"; "a"] |})] in
  let occurrence := {| sd_loc := at_ 1 9 1 10 |} in
  let report_ := importName_report "mod" undefined example_import "a" occurrence in
  checkRestrictedPathAndReport table "mod" {[ "a" := [occurrence] ]} example_import []
    = (Normal tt, [report_; report_])
  ∧ filter (names_importName "a") [report_; report_] ≠ [report_].
Proof.
  intros table occurrence report_. split; [reflexivity|].
  by vm_compute.
Qed.

(** C8: the name under which [checkNode] files a specifier is ["default"]
    for a default specifier, ["*"] for a namespace specifier, the imported
    name for a named specifier that has one, and the local name otherwise;
    the map for a statement with specifiers holds, under every such name,
    the locations of the specifiers of that name; and the map for an
    export-all statement is the single key ["*"] with the single location
    of the token after [export], the wildcard. *)
Theorem collect_importNames_name_keys :
  (∀ s, spec_type s = ImportDefaultSpecifier → specifier_name s = Val "default")
  ∧ (∀ s, spec_type s = ImportNamespaceSpecifier → specifier_name s = Val "*")
  ∧ (∀ s i,
       spec_type s ≠ ImportDefaultSpecifier →
       spec_type s ≠ ImportNamespaceSpecifier →
       imported s = Some i →
       specifier_name s = Val (id_name i))
  ∧ (∀ s i,
       spec_type s ≠ ImportDefaultSpecifier →
       spec_type s ≠ ImportNamespaceSpecifier →
       imported s = None →
       local s = Some i →
       specifier_name s = Val (id_name i))
  ∧ (∀ (node : Node) (l : list Specifier) (rs : list Report),
       node_type node ≠ ExportAllDeclaration →
       specifiers node = Some l →
       ∃ importNames,
         collect_importNames node rs = (Normal importNames, rs)
         ∧ ∀ key, key ≠ "" → importNames !! key = nonempty (occurrences_of key l))
  ∧ (∀ (node : Node) (starToken : Token) (rs : list Report),
       node_type node = ExportAllDeclaration →
       getFirstToken node 1 = Some starToken →
       collect_importNames node rs
       = (Normal {[ "*" := [ {| sd_loc := token_loc starToken |} ] ]}, rs)).
Proof.
  repeat split.
  - intros s Hs. unfold specifier_name. by rewrite Hs.
  - intros s Hs. unfold specifier_name. by rewrite Hs.
  - intros s i Hdefault Hnamespace Hi. unfold specifier_name. rewrite Hi.
    by destruct (spec_type s).
  - intros s i Hdefault Hnamespace Hnone Hi. unfold specifier_name.
    rewrite Hnone, Hi. by destruct (spec_type s).
  - intros node l rs Htype Hl. exists (foldl add_specifier ∅ l).
    split; [by apply collect_importNames_specifiers|].
    intros key Hkey. by apply importNames_lookup.
  - intros node starToken rs. apply collect_importNames_export_all.
Qed.

Lemma collect_importNames_name_keys_witness :
  (∃ importNames,
     collect_importNames example_import [] = (Normal importNames, [])
     ∧ importNames !! "a"
       = Some [ {| sd_loc := at_ 1 9 1 10 |}; {| sd_loc := at_ 1 20 1 26 |} ]
     ∧ importNames !! "b" = Some [ {| sd_loc := at_ 1 12 1 18 |} ]
     ∧ importNames !! "c" = None)
  ∧ collect_importNames example_export_all []
    = (Normal {[ "*" := [ {| sd_loc := at_ 1 7 1 8 |} ] ]}, []).
Proof.
  destruct collect_importNames_name_keys as (_ & _ & _ & _ & Hlist & Hall).
  split.
  - destruct (Hlist example_import
                [named "a" "a" (at_ 1 9 1 10);
                 named "b" "c" (at_ 1 12 1 18);
                 named "a" "d" (at_ 1 20 1 26)] [])
      as (importNames & Hrun & Hkeys); [discriminate|reflexivity|].
    exists importNames. split; [exact Hrun|].
    split; [|split].
    + apply (Hkeys "a"). discriminate.
    + apply (Hkeys "b"). discriminate.
    + apply (Hkeys "c"). discriminate.
  - apply (Hall example_export_all {| token_value := "*"; token_loc := at_ 1 7 1 8 |} []);
      reflexivity.
Defined.

(** ** Both checks on one statement *)

Lemma checkRestrictedPathAndReport_reports (table : gmap string PathEntry)
    (importSource : string) (importNames : gmap string (list SpecifierData))
    (node : Node) (rs : list Report) :
  importNames !! "*" ≠ Some [] →
  checkRestrictedPathAndReport table importSource importNames node rs
  = (Normal tt, rs ++ path_reports table importSource node importNames).
Proof.
  intros Hstar. unfold path_reports.
  destruct (table !! importSource) as [[customMessage restricted]|] eqn:Hentry.
  - destruct restricted as [| |restricted]; simpl.
    + by apply (checkRestrictedPathAndReport_whole _ _ _ _ _ _ Hentry).
    + by apply (checkRestrictedPathAndReport_whole _ _ _ _ _ _ Hentry).
    + by apply checkRestrictedPathAndReport_names.
  - rewrite app_nil_r. by apply checkRestrictedPathAndReport_absent.
Qed.

(** The pattern check only adds to the reports made before it. *)
Lemma checkRestrictedPatternAndReport_frame (matchers : list PatternMatcher)
    (importSource : string) (node : Node) (rs : list Report) :
  checkRestrictedPatternAndReport matchers importSource node rs
  = ((checkRestrictedPatternAndReport matchers importSource node []).1,
     rs ++ (checkRestrictedPatternAndReport matchers importSource node []).2).
Proof.
  unfold checkRestrictedPatternAndReport.
  destruct (length matchers =? 0)%nat; [by rewrite app_nil_r|].
  destruct (find matchers _) as [| |matched]; simpl; by rewrite ?app_nil_r.
Qed.

Lemma collect_importNames_normal (node : Node) :
  (node_type node = ExportAllDeclaration → is_Some (getFirstToken node 1)) →
  ∃ importNames, ∀ rs, collect_importNames node rs = (Normal importNames, rs).
Proof.
  intros Hstar. unfold collect_importNames.
  destruct (node_type node).
  1,2: destruct (specifiers node); by eexists.
  destruct Hstar as [starToken ->]; [done|]. by eexists.
Qed.

(** C9: on every statement [checkNode] runs the path check and then the
    pattern check, each as it runs alone: the reports are those made
    before, then those of the path check, then those of the pattern check.
    For a source that is in the path table and that a pattern matches, the
    pattern check adds its one report after those of the path check, and
    when the path rule has no [importNames] the two checks make two
    reports, one each. *)
Theorem checkNode_both_checks
    (trim : string → string) (table : gmap string PathEntry)
    (matchers : list PatternMatcher) (node : Node) (value : string)
    (rs : list Report) :
  source node = Some value →
  (node_type node = ExportAllDeclaration → is_Some (getFirstToken node 1)) →
  ∃ importNames P o Q,
    collect_importNames node [] = (Normal importNames, [])
    ∧ checkRestrictedPathAndReport table (trim value) importNames node []
      = (Normal tt, P)
    ∧ checkRestrictedPatternAndReport matchers (trim value) node [] = (o, Q)
    ∧ checkNode trim table matchers node rs = (o, rs ++ P ++ Q)
    ∧ ∀ entry before r after,
        table !! trim value = Some entry →
        matchers = before ++ r :: after →
        Forall (λ m, matcher m (trim value) = false) before →
        matcher r (trim value) = true →
        o = Normal tt
        ∧ Q = [pattern_report (trim value) (message r) node]
        ∧ ((∀ names, entry_importNames entry ≠ Val names) →
           P = [path_report (trim value) (entry_message entry) node]).
Proof.
  intros Hsource Hstar.
  destruct (collect_importNames_normal node Hstar) as (importNames & Hcollect).
  destruct (collect_importNames_nonempty node importNames [] [] (Hcollect []))
    as [_ Hnonempty].
  exists importNames, (path_reports table (trim value) node importNames),
    (checkRestrictedPatternAndReport matchers (trim value) node []).1,
    (checkRestrictedPatternAndReport matchers (trim value) node []).2.
  split; [apply Hcollect|].
  split; [by rewrite checkRestrictedPathAndReport_reports|].
  split; [by destruct (checkRestrictedPatternAndReport matchers (trim value) node [])|].
  split.
  - unfold checkNode. rewrite Hsource. unfold mbind, Eff_bind.
    rewrite Hcollect, checkRestrictedPathAndReport_reports by done.
    rewrite checkRestrictedPatternAndReport_frame. by rewrite <- app_assoc.
  - intros entry before r after Hentry -> Hbefore Hr.
    unfold checkRestrictedPatternAndReport.
    replace (length (before ++ r :: after) =? 0)%nat with false
      by (symmetry; apply Nat.eqb_neq; rewrite length_app; simpl; lia).
    rewrite (find_first _ _ _ _ Hbefore Hr). simpl.
    split; [done|]. split; [done|].
    intros Hwhole. unfold path_reports. rewrite Hentry.
    destruct (entry_importNames entry) as [| |names]; try done.
    by destruct (Hwhole names).
Qed.

Lemma checkNode_both_checks_witness :
  let options :=
    [OPathsAndPatterns (Val [CString "mod"]) (Val [CString "mo*"])] in
  checkNode ascii_trim (restrictedPathMessages options)
    (restrictedPatternMatchers example_ignore options) example_import []
  = (Normal tt,
     [path_report "mod" null example_import;
      pattern_report "mod" null example_import]).
Proof.
  intros options.
  destruct (checkNode_both_checks ascii_trim (restrictedPathMessages options)
              (restrictedPatternMatchers example_ignore options)
              example_import " mod " [])
    as (importNames & P & o & Q & _ & _ & _ & Hrun & Hboth);
    [reflexivity|discriminate|].
  destruct (Hboth {| entry_message := null; entry_importNames := undefined |}
              [] {| matcher := example_ignore (Val "mo*");
                    pattern := Val "mo*"; message := null |} [])
    as (-> & -> & HP); [reflexivity|reflexivity|constructor|reflexivity|].
  rewrite HP in Hrun by discriminate. exact Hrun.
Defined.

(** ** The tables of a configuration *)

Lemma add_path_object_set (memo : gmap string PathEntry) (e : OptionsElement) :
  add_path memo e = object_set memo (path_key e) (path_entry e).
Proof. unfold add_path, path_key, path_entry. by destruct (is_string e). Qed.

Lemma foldl_add_path_skip (after : list OptionsElement) (memo : gmap string PathEntry)
    (key : string) :
  Forall (λ e, path_key e ≠ key) after →
  foldl add_path memo after !! key = memo !! key.
Proof.
  revert memo. induction after as [|e after IH]; intros memo Hafter; [done|].
  apply Forall_cons in Hafter as [He Hafter]. simpl. rewrite IH by done.
  rewrite add_path_object_set. unfold object_set.
  destruct (decide (path_key e = "__proto__")); [done|].
  by rewrite lookup_insert_ne.
Qed.

(** Away from the key ["__proto__"], the last configured path of a source
    is the one the table holds. *)
Lemma restrictedPathMessages_last_write_wins (options : list OptionsElement)
    (before : list OptionsElement) (e : OptionsElement) (after : list OptionsElement) :
  restrictedPaths options = before ++ e :: after →
  path_key e ≠ "__proto__" →
  Forall (λ e', path_key e' ≠ path_key e) after →
  restrictedPathMessages options !! path_key e = Some (path_entry e).
Proof.
  intros Hpaths Hkey Hafter. unfold restrictedPathMessages.
  rewrite Hpaths, foldl_app. simpl.
  rewrite foldl_add_path_skip by done.
  rewrite add_path_object_set. unfold object_set.
  rewrite decide_False by done. by rewrite lookup_insert_eq.
Qed.

(** No configuration puts the key ["__proto__"] in the table. *)
Lemma restrictedPathMessages_proto (options : list OptionsElement) :
  restrictedPathMessages options !! "__proto__" = None.
Proof.
  unfold restrictedPathMessages.
  assert (H : ∀ l (memo : gmap string PathEntry),
    memo !! "__proto__" = None → foldl add_path memo l !! "__proto__" = None).
  { induction l as [|e l IH]; intros memo Hmemo; [done|]. simpl. apply IH.
    rewrite add_path_object_set. unfold object_set.
    destruct (decide (path_key e = "__proto__")); [done|].
    by rewrite lookup_insert_ne. }
  apply H, lookup_empty.
Qed.

(** C6, as the code has it: two configured paths of the source
    ["__proto__"] leave the table without that source, so neither the later
    rule nor the earlier one is applied to an import of it. *)
Theorem restrictedPathMessages_proto_not_stored :
  let options :=
    [OItem (CString "__proto__");
     OItem (CObject {| cfg_name := Val "__proto__"; cfg_pattern := undefined;
                       cfg_message := Val "later"; cfg_importNames := undefined |})] in
  restrictedPathMessages options !! "__proto__" = None
  ∧ ∀ importNames node rs,
      checkRestrictedPathAndReport (restrictedPathMessages options) "__proto__"
        importNames node rs = (Normal tt, rs).
Proof.
  intros options.
  split; [apply restrictedPathMessages_proto|].
  intros importNames node rs.
  apply checkRestrictedPathAndReport_absent, restrictedPathMessages_proto.
Qed.

(** ** Nothing restricted *)

Lemma collect_importNames_reports (node : Node) (rs : list Report) :
  (collect_importNames node rs).2 = rs.
Proof.
  unfold collect_importNames.
  destruct (node_type node).
  1,2: by destruct (specifiers node).
  by destruct (getFirstToken node 1).
Qed.

Lemma checkNode_nothing_restricted (trim : string → string) (node : Node)
    (rs : list Report) :
  (checkNode trim ∅ [] node rs).2 = rs.
Proof.
  unfold checkNode. destruct (source node) as [value|]; [|done].
  unfold mbind, Eff_bind.
  pose proof (collect_importNames_reports node rs) as Hcollect.
  destruct (collect_importNames node rs) as [[importNames|e] rs'];
    simpl in Hcollect; subst rs'; [|done].
  by rewrite checkRestrictedPathAndReport_absent by apply lookup_empty.
Qed.

Lemma forEach_reports {A} (f : A → Eff unit) (l : list A) (rs : list Report) :
  (∀ x rs', (f x rs').2 = rs') → (forEach l f rs).2 = rs.
Proof.
  intros Hf. revert rs. induction l as [|x l IH]; intros rs; simpl; [done|].
  unfold mbind, Eff_bind. pose proof (Hf x rs) as Hx.
  destruct (f x rs) as [[[]|e] rs']; simpl in Hx; subst rs'; [apply IH|done].
Qed.

Lemma visit_nothing_restricted (trim : string → string)
    (ignore_add : JsOpt string → string → bool) (options : list OptionsElement)
    (node : Node) (rs : list Report) :
  restrictedPathMessages options = ∅ →
  restrictedPatternMatchers ignore_add options = [] →
  (visit (create trim ignore_add options) node rs).2 = rs.
Proof.
  intros Htable Hmatchers. unfold visit, create.
  destruct (_ && _); simpl.
  - by destruct (node_type node).
  - rewrite Htable, Hmatchers.
    destruct (node_type node); try apply checkNode_nothing_restricted.
    destruct (bool_decide _); [apply checkNode_nothing_restricted|done].
Qed.

(** C7, as amended: when the configuration gives no path and no pattern,
    the tables are empty, [create] returns no listener, so [checkNode] is
    called on no statement, and a session makes no report whatever the
    statements are.  Whenever the two tables are empty, a session makes no
    report. *)
Theorem create_nothing_restricted
    (trim : string → string) (ignore_add : JsOpt string → string → bool)
    (options : list OptionsElement) :
  (restrictedPaths options = [] →
   restrictedPatterns options = [] →
   restrictedPathMessages options = ∅
   ∧ restrictedPatternMatchers ignore_add options = []
   ∧ create trim ignore_add options = no_listeners
   ∧ ∀ program, lint trim ignore_add options program = (Normal tt, []))
  ∧ (restrictedPathMessages options = ∅ →
     restrictedPatternMatchers ignore_add options = [] →
     ∀ program, (lint trim ignore_add options program).2 = []).
Proof.
  split.
  - intros Hpaths Hpatterns.
    assert (Hcreate : create trim ignore_add options = no_listeners)
      by (unfold create; by rewrite Hpaths, Hpatterns).
    split; [unfold restrictedPathMessages; by rewrite Hpaths|].
    split; [unfold restrictedPatternMatchers; by rewrite Hpatterns|].
    split; [done|].
    intros program. unfold lint. rewrite Hcreate.
    generalize (@nil Report). induction program as [|node program IH]; intros rs.
    + done.
    + simpl. unfold mbind, Eff_bind.
      replace (visit no_listeners node rs) with (Normal tt, rs)
        by (unfold visit; by destruct (node_type node)).
      apply IH.
  - intros Htable Hmatchers program. unfold lint.
    apply forEach_reports. intros node rs.
    by apply visit_nothing_restricted.
Qed.

Lemma create_nothing_restricted_witness :
  create ascii_trim example_ignore [] = no_listeners
  ∧ lint ascii_trim example_ignore [OPathsAndPatterns (Val []) undefined]
      [example_import; example_namespace; example_export_all]
    = (Normal tt, []).
Proof.
  split.
  - apply (proj1 (create_nothing_restricted ascii_trim example_ignore []));
      reflexivity.
  - apply (proj1 (create_nothing_restricted ascii_trim example_ignore
                    [OPathsAndPatterns (Val []) undefined]));
      reflexivity.
Defined.

(** C7, as first stated, fails for the options [["__proto__"]]: the two
    tables are empty, yet the list of paths is not, so [create] registers
    its listeners and [checkNode] is called on every import. *)
Lemma create_nothing_restricted_counterexample :
  let options := [OItem (CString "__proto__")] in
  restrictedPathMessages options = ∅
  ∧ restrictedPatternMatchers example_ignore options = []
  ∧ create ascii_trim example_ignore options ≠ no_listeners
  ∧ ∃ listener,
      on_ImportDeclaration (create ascii_trim example_ignore options) = Some listener
      ∧ ∀ node rs, listener node rs = checkNode ascii_trim ∅ [] node rs.
Proof.
  intros options. split; [reflexivity|]. split; [reflexivity|]. split.
  - intros Hcreate.
    assert (Hlistener :
      on_ImportDeclaration (create ascii_trim example_ignore options)
      = on_ImportDeclaration no_listeners) by (by rewrite Hcreate).
    discriminate Hlistener.
  - eexists. split; [reflexivity|]. done.
Qed.

(** * Further properties of the rule *)

(** ** The shape of the options and the table of paths *)

Lemma find_cases {A} (p : A → bool) (l : list A) :
  (find l p = undefined ∧ Forall (λ y, p y = false) l)
  ∨ (∃ x, find l p = Val x ∧ p x = true ∧ x ∈ l).
Proof.
  induction l as [|y l IH]; simpl.
  - left. by split.
  - destruct (p y) eqn:Hy.
    + right. exists y. repeat split; [done|]. constructor.
    + destruct IH as [[Hfind Hall]|(x & Hfind & Hx & Hin)].
      * left. split; [done|]. by constructor.
      * right. exists x. repeat split; try done. by constructor.
Qed.

Lemma checkRestrictedPatternAndReport_empty (importSource : string) (node : Node)
    (rs : list Report) :
  checkRestrictedPatternAndReport [] importSource node rs = (Normal tt, rs).
Proof. done. Qed.

Lemma checkRestrictedPatternAndReport_match
    (before : list PatternMatcher) (r : PatternMatcher) (after : list PatternMatcher)
    (importSource : string) (node : Node) (rs : list Report) :
  Forall (λ m, matcher m importSource = false) before →
  matcher r importSource = true →
  checkRestrictedPatternAndReport (before ++ r :: after) importSource node rs
  = (Normal tt, rs ++ [pattern_report importSource (message r) node]).
Proof.
  intros Hbefore Hr. unfold checkRestrictedPatternAndReport.
  replace (length (before ++ r :: after) =? 0)%nat with false
    by (symmetry; apply Nat.eqb_neq; rewrite length_app; simpl; lia).
  by rewrite (find_first _ _ _ _ Hbefore Hr).
Qed.

Lemma checkNode_run (trim : string → string) (table : gmap string PathEntry)
    (matchers : list PatternMatcher) (node : Node) (value : string)
    (importNames : gmap string (list SpecifierData)) (rs : list Report) :
  source node = Some value →
  (∀ rs', collect_importNames node rs' = (Normal importNames, rs')) →
  importNames !! "*" ≠ Some [] →
  checkNode trim table matchers node rs
  = checkRestrictedPatternAndReport matchers (trim value) node
      (rs ++ path_reports table (trim value) node importNames).
Proof.
  intros Hsource Hcollect Hstar. unfold checkNode. rewrite Hsource.
  unfold mbind, Eff_bind. rewrite Hcollect.
  by rewrite checkRestrictedPathAndReport_reports.
Qed.

(** X1: when the first element of the options is not an object with
    [paths] or [patterns], the whole list is the list of paths and there is
    no pattern: [checkNode] completes on every statement with the reports
    of the path check only. *)
Theorem flat_options_no_pattern
    (trim : string → string) (ignore_add : JsOpt string → string → bool)
    (options : list OptionsElement) (node : Node) (value : string)
    (rs : list Report) :
  isPathAndPatternsObject options = false →
  source node = Some value →
  (node_type node = ExportAllDeclaration → is_Some (getFirstToken node 1)) →
  restrictedPaths options = options
  ∧ restrictedPatternMatchers ignore_add options = []
  ∧ ∃ importNames,
      collect_importNames node [] = (Normal importNames, [])
      ∧ checkNode trim (restrictedPathMessages options)
          (restrictedPatternMatchers ignore_add options) node rs
        = (Normal tt,
           rs ++ path_reports (restrictedPathMessages options) (trim value) node
                   importNames).
Proof.
  intros Hflat Hsource Hstar.
  assert (Hmatchers : restrictedPatternMatchers ignore_add options = [])
    by (unfold restrictedPatternMatchers, restrictedPatterns; by rewrite Hflat).
  split; [unfold restrictedPaths; by rewrite Hflat|]. split; [done|].
  destruct (collect_importNames_normal node Hstar) as (importNames & Hcollect).
  destruct (collect_importNames_nonempty node importNames [] [] (Hcollect []))
    as [_ Hnonempty].
  exists importNames. split; [apply Hcollect|].
  rewrite Hmatchers.
  rewrite (checkNode_run trim _ [] node value importNames rs Hsource Hcollect)
    by apply Hnonempty.
  apply checkRestrictedPatternAndReport_empty.
Qed.

Lemma flat_options_no_pattern_witness :
  let options :=
    [OItem (CString "mod");
     OItem (CObject {| cfg_name := undefined; cfg_pattern := Val "mo*";
                       cfg_message := undefined; cfg_importNames := undefined |})] in
  restrictedPatternMatchers example_ignore options = []
  ∧ checkNode ascii_trim (restrictedPathMessages options)
      (restrictedPatternMatchers example_ignore options) example_side_effect []
    = (Normal tt, [path_report "mod" null example_side_effect]).
Proof.
  intros options.
  destruct (flat_options_no_pattern ascii_trim example_ignore options
              example_side_effect "mod" [])
    as (_ & Hmatchers & importNames & Hcollect & Hrun);
    [reflexivity|reflexivity|discriminate|].
  split; [exact Hmatchers|].
  injection Hcollect as <-. exact Hrun.
Defined.

(** X2: a source that is the key of no configured path is not in the
    table, and the path check makes no report for it, whatever the names
    of the statement. *)
Theorem unconfigured_source_no_path_report
    (options : list OptionsElement) (importSource : string)
    (importNames : gmap string (list SpecifierData)) (node : Node) (rs : list Report) :
  Forall (λ e, path_key e ≠ importSource) (restrictedPaths options) →
  restrictedPathMessages options !! importSource = None
  ∧ checkRestrictedPathAndReport (restrictedPathMessages options) importSource
      importNames node rs = (Normal tt, rs).
Proof.
  intros Hkeys.
  assert (Habsent : restrictedPathMessages options !! importSource = None).
  { unfold restrictedPathMessages. rewrite foldl_add_path_skip by done.
    apply lookup_empty. }
  split; [done|]. by apply checkRestrictedPathAndReport_absent.
Qed.

Lemma unconfigured_source_no_path_report_witness :
  let options := [OItem (CString "mod"); OItem (CString "fs")] in
  restrictedPathMessages options !! "path" = None
  ∧ checkRestrictedPathAndReport (restrictedPathMessages options) "path"
      {[ "*" := [ {| sd_loc := at_ 1 7 1 14 |} ] ]} example_namespace []
    = (Normal tt, []).
Proof.
  intros options.
  apply (unconfigured_source_no_path_report options "path").
  repeat constructor; discriminate.
Defined.

(** X3: for a source other than ["__proto__"], the table holds the rule of
    the last configured path of that source, whatever paths come before
    it: a string gives a rule without message and without names, an object
    gives its [message] and its [importNames]. *)
Theorem configured_path_last_wins
    (options : list OptionsElement)
    (before : list OptionsElement) (e : OptionsElement) (after : list OptionsElement) :
  restrictedPaths options = before ++ e :: after →
  path_key e ≠ "__proto__" →
  Forall (λ e', path_key e' ≠ path_key e) after →
  restrictedPathMessages options !! path_key e
  = Some match e with
         | OItem (CString _) => {| entry_message := null; entry_importNames := undefined |}
         | OItem (CObject o) => {| entry_message := cfg_message o;
                                   entry_importNames := cfg_importNames o |}
         | OPathsAndPatterns _ _ => {| entry_message := undefined;
                                       entry_importNames := undefined |}
         end.
Proof.
  intros Hpaths Hkey Hafter. unfold restrictedPathMessages.
  rewrite Hpaths, foldl_app. simpl.
  rewrite foldl_add_path_skip by done.
  rewrite add_path_object_set. unfold object_set.
  rewrite decide_False by done. rewrite lookup_insert_eq.
  by destruct e as [[s|o]|paths patterns].
Qed.

Lemma configured_path_last_wins_witness :
  let later := OItem (CObject {| cfg_name := Val "mod"; cfg_pattern := undefined;
                                 cfg_message := Val "use other";
                                 cfg_importNames := Val ["a"] |}) in
  restrictedPathMessages [OItem (CString "mod"); later; OItem (CString "fs")] !! "mod"
  = Some {| entry_message := Val "use other"; entry_importNames := Val ["a"] |}.
Proof.
  intros later.
  apply (configured_path_last_wins [OItem (CString "mod"); later; OItem (CString "fs")]
           [OItem (CString "mod")] later [OItem (CString "fs")]).
  - reflexivity.
  - discriminate.
  - repeat constructor. discriminate.
Defined.

(** X4: whatever the options, the table has no own key ["__proto__"], and
    the path check makes no report for a statement whose source is
    ["__proto__"]. *)
Theorem proto_source_never_reported
    (options : list OptionsElement)
    (importNames : gmap string (list SpecifierData)) (node : Node) (rs : list Report) :
  restrictedPathMessages options !! "__proto__" = None
  ∧ checkRestrictedPathAndReport (restrictedPathMessages options) "__proto__"
      importNames node rs = (Normal tt, rs).
Proof.
  split; [apply restrictedPathMessages_proto|].
  apply checkRestrictedPathAndReport_absent, restrictedPathMessages_proto.
Qed.

(** X5: an object among the paths that has no [name] is filed under the
    key ["undefined"]: when it is the last such path, the table restricts
    the source ["undefined"] with the message and the names of that
    object. *)
Theorem nameless_path_restricts_undefined
    (options : list OptionsElement)
    (before : list OptionsElement) (o : ConfigObject) (after : list OptionsElement) :
  restrictedPaths options = before ++ OItem (CObject o) :: after →
  cfg_name o = undefined →
  Forall (λ e, path_key e ≠ "undefined") after →
  restrictedPathMessages options !! "undefined"
  = Some {| entry_message := cfg_message o; entry_importNames := cfg_importNames o |}.
Proof.
  intros Hpaths Hname Hafter.
  assert (Hkey : path_key (OItem (CObject o)) = "undefined")
    by (unfold path_key; simpl; by rewrite Hname).
  unfold restrictedPathMessages. rewrite Hpaths, foldl_app. simpl.
  rewrite foldl_add_path_skip by done.
  rewrite add_path_object_set, Hkey. unfold object_set.
  rewrite decide_False by discriminate. by rewrite lookup_insert_eq.
Qed.

Lemma nameless_path_restricts_undefined_witness :
  let o := {| cfg_name := undefined; cfg_pattern := Val "foo/*";
              cfg_message := undefined; cfg_importNames := undefined |} in
  restrictedPathMessages [OItem (CObject o)] !! "undefined"
  = Some {| entry_message := undefined; entry_importNames := undefined |}.
Proof.
  intros o.
  apply (nameless_path_restricts_undefined [OItem (CObject o)] [] o []).
  - reflexivity.
  - reflexivity.
  - constructor.
Defined.

(** ** The list of pattern matchers *)

Lemma restrictedPatternMatchers_fmap (ignore_add : JsOpt string → string → bool)
    (options : list OptionsElement) :
  restrictedPatternMatchers ignore_add options
  = (λ item, {| matcher := ignore_add (item_pattern item);
                pattern := item_pattern item;
                message := item_message item |}) <$> restrictedPatterns options.
Proof.
  unfold restrictedPatternMatchers. apply list_fmap_ext.
  by intros i [s|o] _.
Qed.

(** X6: the matchers keep the order of the configured patterns: when a
    configured pattern matches the source and none before it does, the
    pattern check makes the one report of that pattern, with the message
    of its object, and without message for a pattern given as a string. *)
Theorem configured_pattern_first_match
    (ignore_add : JsOpt string → string → bool) (options : list OptionsElement)
    (before : list ConfigItem) (p : ConfigItem) (after : list ConfigItem)
    (importSource : string) (node : Node) (rs : list Report) :
  restrictedPatterns options = before ++ p :: after →
  Forall (λ q, ignore_add (item_pattern q) importSource = false) before →
  ignore_add (item_pattern p) importSource = true →
  checkRestrictedPatternAndReport (restrictedPatternMatchers ignore_add options)
    importSource node rs
  = (Normal tt, rs ++ [pattern_report importSource (item_message p) node]).
Proof.
  intros Hpatterns Hbefore Hp.
  rewrite restrictedPatternMatchers_fmap, Hpatterns, fmap_app, fmap_cons.
  rewrite checkRestrictedPatternAndReport_match; [done| |done].
  apply Forall_fmap. eapply Forall_impl; [exact Hbefore|]. by intros q Hq.
Qed.

Lemma configured_pattern_first_match_witness :
  let options :=
    [OPathsAndPatterns undefined
       (Val [CString "bar/*";
             CObject {| cfg_name := undefined; cfg_pattern := Val "foo/*";
                        cfg_message := Val "use baz"; cfg_importNames := undefined |};
             CString "foo/bar"])] in
  checkRestrictedPatternAndReport (restrictedPatternMatchers example_ignore options)
    "foo/bar" example_import []
  = (Normal tt, [pattern_report "foo/bar" (Val "use baz") example_import]).
Proof.
  intros options.
  apply (configured_pattern_first_match example_ignore options
           [CString "bar/*"]
           (CObject {| cfg_name := undefined; cfg_pattern := Val "foo/*";
                       cfg_message := Val "use baz"; cfg_importNames := undefined |})
           [CString "foo/bar"] "foo/bar" example_import []).
  - reflexivity.
  - repeat constructor.
  - reflexivity.
Defined.

(** ** The listeners *)

(** X7: the listener of the named exports, when there is one, does nothing
    for an export without source and runs [checkNode] for an export with a
    source. *)
Theorem export_listener_needs_source
    (trim : string → string) (ignore_add : JsOpt string → string → bool)
    (options : list OptionsElement) (listener : Node → Eff unit)
    (node : Node) (rs : list Report) :
  on_ExportNamedDeclaration (create trim ignore_add options) = Some listener →
  (source node = None → listener node rs = (Normal tt, rs))
  ∧ (is_Some (source node) →
     listener node rs
     = checkNode trim (restrictedPathMessages options)
         (restrictedPatternMatchers ignore_add options) node rs).
Proof.
  unfold create. destruct (_ && _); simpl; [done|].
  intros [= <-]. split.
  - intros Hnone. rewrite Hnone.
    rewrite bool_decide_eq_false_2; [done|]. by intros [? ?].
  - intros Hsome. by rewrite bool_decide_eq_true_2.
Qed.

Lemma export_listener_needs_source_witness :
  ∃ listener,
    on_ExportNamedDeclaration
      (create ascii_trim example_ignore [OItem (CString "mod")]) = Some listener
    ∧ listener example_local_export [] = (Normal tt, []).
Proof.
  eexists. split; [reflexivity|].
  apply (proj1 (export_listener_needs_source ascii_trim example_ignore
                  [OItem (CString "mod")] _ example_local_export [] eq_refl)).
  reflexivity.
Defined.

(** X8: on a statement with a source (and, for an export-all, with its
    wildcard token), [checkNode] completes without exception exactly when
    there is no pattern matcher or some matcher matches the trimmed
    source. *)
Theorem checkNode_completes_iff
    (trim : string → string) (table : gmap string PathEntry)
    (matchers : list PatternMatcher) (node : Node) (value : string)
    (rs : list Report) :
  source node = Some value →
  (node_type node = ExportAllDeclaration → is_Some (getFirstToken node 1)) →
  (checkNode trim table matchers node rs).1 = Normal tt
  ↔ matchers = [] ∨ Exists (λ m, matcher m (trim value) = true) matchers.
Proof.
  intros Hsource Hstar.
  destruct (collect_importNames_normal node Hstar) as (importNames & Hcollect).
  destruct (collect_importNames_nonempty node importNames [] [] (Hcollect []))
    as [_ Hnonempty].
  rewrite (checkNode_run trim table matchers node value importNames rs
             Hsource Hcollect) by apply Hnonempty.
  unfold checkRestrictedPatternAndReport.
  destruct matchers as [|m matchers]; [by split; [left|]|].
  change (length (m :: matchers) =? 0)%nat with false. cbv iota.
  destruct (find_cases (λ patternMatcher, matcher patternMatcher (trim value))
              (m :: matchers))
    as [[Hfind Hnone]|(x & Hfind & Hx & Hin)]; rewrite Hfind; simpl.
  - split; [done|]. intros [?|Hsome]; [done|].
    apply Exists_exists in Hsome as (y & Hy & Hmatch).
    rewrite (proj1 (Forall_forall _ _) Hnone y Hy) in Hmatch. done.
  - split; [|done]. intros _. right. apply Exists_exists. by exists x.
Qed.

Lemma checkNode_completes_iff_witness :
  let matcher_of p := {| matcher := example_ignore (Val p);
                         pattern := Val p; message := null |} in
  (checkNode ascii_trim ∅ [matcher_of "fs"; matcher_of "mo*"] example_import []).1
  = Normal tt.
Proof.
  intros matcher_of.
  apply (checkNode_completes_iff ascii_trim ∅ [matcher_of "fs"; matcher_of "mo*"]
           example_import " mod " []); [reflexivity|discriminate|].
  right. apply Exists_cons_tl, Exists_cons_hd. reflexivity.
Defined.

(** ** The path check on the names of a statement *)

Lemma importName_reports_absent (importSource : string) (customMessage : JsOpt string)
    (node : Node) (restricted : list string)
    (importNames : gmap string (list SpecifierData)) :
  Forall (λ n, importNames !! n = None) restricted →
  importName_reports importSource customMessage node restricted importNames = [].
Proof.
  induction 1 as [|n restricted Hn _ IH]; [done|].
  rewrite importName_reports_cons, IH, Hn. done.
Qed.

(** X9: for a rule with [importNames], a statement that has no occurrence
    under ["*"] and none under a restricted name gets no report from the
    path check: importing other names of the source, or importing the
    source for its effects only, is allowed. *)
Theorem unrestricted_names_no_report
    (table : gmap string PathEntry) (importSource : string)
    (customMessage : JsOpt string) (restricted : list string)
    (importNames : gmap string (list SpecifierData)) (node : Node) (rs : list Report) :
  table !! importSource
    = Some {| entry_message := customMessage; entry_importNames := Val restricted |} →
  importNames !! "*" = None →
  Forall (λ n, importNames !! n = None) restricted →
  checkRestrictedPathAndReport table importSource importNames node rs = (Normal tt, rs).
Proof.
  intros Hentry Hstar Hnames.
  rewrite (checkRestrictedPathAndReport_names _ _ _ _ _ _ _ Hentry)
    by (by rewrite Hstar).
  unfold everything_reports. rewrite Hstar.
  rewrite importName_reports_absent by done. simpl. by rewrite app_nil_r.
Qed.

Lemma unrestricted_names_no_report_witness :
  let table := restrictedPathMessages
                 [OItem (CObject {| cfg_name := Val "mod"; cfg_pattern := undefined;
                                    cfg_message := undefined;
                                    cfg_importNames := Val ["x"; "default"] |})] in
  checkRestrictedPathAndReport table "mod"
    {[ "a" := [ {| sd_loc := at_ 1 9 1 10 |} ] ]} example_import []
    = (Normal tt, [])
  ∧ checkRestrictedPathAndReport table "mod" ∅ example_side_effect []
    = (Normal tt, []).
Proof.
  intros table. split.
  - apply (unrestricted_names_no_report table "mod" undefined ["x"; "default"]);
      [reflexivity|reflexivity|repeat constructor].
  - apply (unrestricted_names_no_report table "mod" undefined ["x"; "default"]);
      [reflexivity|reflexivity|repeat constructor].
Defined.

Lemma importName_reports_occurrences (importSource : string)
    (customMessage : JsOpt string) (node : Node) (restricted : list string)
    (l : list Specifier) :
  Forall (λ s, truthy (specifier_name s)) l →
  importName_reports importSource customMessage node restricted
    (foldl add_specifier ∅ l)
  = restricted ≫= λ importName,
      importName_report importSource customMessage node importName
        <$> occurrences_of importName l.
Proof.
  intros Hnames. induction restricted as [|n restricted IH]; [done|].
  rewrite importName_reports_cons, bind_cons, IH.
  destruct (decide (n = "")) as [->|Hn].
  - rewrite foldl_add_specifier_empty_key, lookup_empty.
    by rewrite occurrences_of_empty_key.
  - rewrite foldl_add_specifier_lookup by done. by rewrite lookup_empty.
Qed.

(** X10: for a statement with a list of specifiers that all have a
    non-empty name, and a rule with [importNames] for its trimmed source,
    [checkNode] (with no pattern configured) reports first the namespace
    import, at the first namespace specifier, and then the restricted names
    in the order of the rule, each at every specifier of that name in the
    order of the statement. *)
Theorem checkNode_specifier_list
    (trim : string → string) (table : gmap string PathEntry)
    (node : Node) (value : string) (l : list Specifier)
    (customMessage : JsOpt string) (restricted : list string) (rs : list Report) :
  source node = Some value →
  node_type node ≠ ExportAllDeclaration →
  specifiers node = Some l →
  Forall (λ s, truthy (specifier_name s)) l →
  table !! trim value
    = Some {| entry_message := customMessage; entry_importNames := Val restricted |} →
  checkNode trim table [] node rs
  = (Normal tt,
     rs ++ match occurrences_of "*" l with
           | first :: _ =>
               [everything_report (trim value) customMessage restricted node first]
           | [] => []
           end
        ++ (restricted ≫= λ importName,
              importName_report (trim value) customMessage node importName
                <$> occurrences_of importName l)).
Proof.
  intros Hsource Htype Hl Hnames Hentry.
  rewrite (checkNode_run trim table [] node value (foldl add_specifier ∅ l) rs Hsource).
  - rewrite checkRestrictedPatternAndReport_empty.
    unfold path_reports. rewrite Hentry. simpl.
    rewrite importName_reports_occurrences by done.
    unfold everything_reports. rewrite importNames_lookup by done.
    by destruct (occurrences_of "*" l).
  - intros rs'. by apply collect_importNames_specifiers.
  - apply foldl_add_specifier_nonempty. intros key. by rewrite lookup_empty.
Qed.

Lemma checkNode_specifier_list_witness :
  let table := restrictedPathMessages
                 [OItem (CObject {| cfg_name := Val "mod"; cfg_pattern := undefined;
                                    cfg_message := Val "no";
                                    cfg_importNames := Val [""; "default"; "x"] |})] in
  checkNode ascii_trim table [] example_default_namespace []
  = (Normal tt,
     [everything_report "mod" (Val "no") [""; "default"; "x"] example_default_namespace
        {| sd_loc := at_ 1 10 1 17 |};
      importName_report "mod" (Val "no") example_default_namespace "default"
        {| sd_loc := at_ 1 7 1 8 |}]).
Proof.
  intros table.
  etrans;
    [apply (checkNode_specifier_list ascii_trim table example_default_namespace "mod"
              (default [] (specifiers example_default_namespace))
              (Val "no") [""; "default"; "x"] []);
     [reflexivity|discriminate|reflexivity|repeat constructor|reflexivity]
    |reflexivity].
Defined.

(** X11: for an export-all statement and a rule with [importNames] for its
    trimmed source, none of them ["*"], [checkNode] (with no pattern
    configured) makes exactly one report, of the kind [everything], at the
    token after [export]. *)
Theorem checkNode_export_all
    (trim : string → string) (table : gmap string PathEntry)
    (node : Node) (value : string) (starToken : Token)
    (customMessage : JsOpt string) (restricted : list string) (rs : list Report) :
  source node = Some value →
  node_type node = ExportAllDeclaration →
  getFirstToken node 1 = Some starToken →
  table !! trim value
    = Some {| entry_message := customMessage; entry_importNames := Val restricted |} →
  "*" ∉ restricted →
  checkNode trim table [] node rs
  = (Normal tt,
     rs ++ [everything_report (trim value) customMessage restricted node
              {| sd_loc := token_loc starToken |}]).
Proof.
  intros Hsource Htype Hstar Hentry Hnames.
  rewrite (checkNode_run trim table [] node value
             {[ "*" := [ {| sd_loc := token_loc starToken |} ] ]} rs Hsource).
  - rewrite checkRestrictedPatternAndReport_empty.
    unfold path_reports. rewrite Hentry. simpl.
    unfold everything_reports. rewrite lookup_singleton_eq.
    rewrite importName_reports_absent; [done|].
    apply Forall_forall. intros n Hn. apply lookup_singleton_ne.
    by intros <-.
  - intros rs'. by apply collect_importNames_export_all.
  - by rewrite lookup_singleton_eq.
Qed.

Lemma checkNode_export_all_witness :
  let table := restrictedPathMessages
                 [OItem (CObject {| cfg_name := Val "mod"; cfg_pattern := undefined;
                                    cfg_message := undefined;
                                    cfg_importNames := Val ["a"] |})] in
  checkNode ascii_trim table [] example_export_all []
  = (Normal tt,
     [everything_report "mod" undefined ["a"] example_export_all
        {| sd_loc := at_ 1 7 1 8 |}]).
Proof.
  intros table.
  apply (checkNode_export_all ascii_trim table example_export_all "mod"
           {| token_value := "*"; token_loc := at_ 1 7 1 8 |} undefined ["a"] []);
    [reflexivity|reflexivity|reflexivity|reflexivity|].
  intros Hin. apply elem_of_cons in Hin as [?|Hin]; [done|].
  by apply elem_of_nil in Hin.
Defined.

(** ** What every report of a statement looks like *)

Lemma path_report_made (src : string) (n : Node) (msg : JsOpt string) :
  made_by_rule src n (path_report src msg n).
Proof. left. by exists msg. Qed.

Lemma pattern_report_made (src : string) (n : Node) (msg : JsOpt string) :
  made_by_rule src n (pattern_report src msg n).
Proof. right. left. by exists msg. Qed.

Lemma everything_report_made (src : string) (n : Node) (msg : JsOpt string)
    (names : list string) (d : SpecifierData) :
  made_by_rule src n (everything_report src msg names n d).
Proof. right. right. left. by exists msg, names, d. Qed.

Lemma importName_report_made (src : string) (n : Node) (msg : JsOpt string)
    (name : string) (d : SpecifierData) :
  made_by_rule src n (importName_report src msg n name d).
Proof. right. right. right. by exists msg, name, d. Qed.

Lemma path_reports_made_by_rule (table : gmap string PathEntry) (src : string)
    (n : Node) (importNames : gmap string (list SpecifierData)) :
  Forall (made_by_rule src n) (path_reports table src n importNames).
Proof.
  unfold path_reports.
  destruct (table !! src) as [[customMessage restricted]|]; [|constructor].
  assert (Hwhole : Forall (made_by_rule src n) [path_report src customMessage n])
    by (apply Forall_singleton, path_report_made).
  destruct restricted as [| |restricted]; simpl; try exact Hwhole.
  apply Forall_app. split.
  - unfold everything_reports.
    destruct (importNames !! "*") as [[|d rest]|]; [constructor| |constructor].
    apply Forall_singleton, everything_report_made.
  - apply Forall_forall. intros r Hr. unfold importName_reports in Hr.
    apply list_elem_of_bind in Hr as (name & Hr & _).
    apply list_elem_of_fmap in Hr as (d & -> & _).
    apply importName_report_made.
Qed.

Lemma pattern_reports_made_by_rule (matchers : list PatternMatcher) (src : string)
    (n : Node) :
  Forall (made_by_rule src n) (checkRestrictedPatternAndReport matchers src n []).2.
Proof.
  unfold checkRestrictedPatternAndReport.
  destruct (length matchers =? 0)%nat; [constructor|].
  destruct (find matchers _) as [| |matched]; simpl; [constructor|constructor|].
  apply Forall_singleton, pattern_report_made.
Qed.

Lemma checkNode_new_reports (trim : string → string) (table : gmap string PathEntry)
    (matchers : list PatternMatcher) (statement : Node) (rs : list Report) :
  ∃ new,
    (checkNode trim table matchers statement rs).2 = rs ++ new
    ∧ ∀ r, r ∈ new →
        ∃ value, source statement = Some value
                 ∧ made_by_rule (trim value) statement r.
Proof.
  destruct (source statement) as [value|] eqn:Hsource; cycle 1.
  { exists []. split; [|by intros r Hr%elem_of_nil].
    unfold checkNode. rewrite Hsource. simpl. by rewrite app_nil_r. }
  assert (Hcases :
    (node_type statement = ExportAllDeclaration ∧ getFirstToken statement 1 = None)
    ∨ (node_type statement = ExportAllDeclaration →
       is_Some (getFirstToken statement 1))).
  { destruct (getFirstToken statement 1) as [starToken|]; [by right|].
    destruct (node_type statement); [by right|by right|by left]. }
  destruct Hcases as [[Htype Hnone]|Hwild].
  { exists []. split; [|by intros r Hr%elem_of_nil].
    unfold checkNode, collect_importNames. rewrite Hsource, Htype, Hnone.
    simpl. by rewrite app_nil_r. }
  destruct (collect_importNames_normal statement Hwild) as (importNames & Hcollect).
  destruct (collect_importNames_nonempty statement importNames [] [] (Hcollect []))
    as [_ Hnonempty].
  exists (path_reports table (trim value) statement importNames
          ++ (checkRestrictedPatternAndReport matchers (trim value) statement []).2).
  split.
  - rewrite (checkNode_run trim table matchers statement value importNames rs
               Hsource Hcollect) by apply Hnonempty.
    rewrite checkRestrictedPatternAndReport_frame. simpl. by rewrite <- app_assoc.
  - intros r Hr. exists value. split; [done|].
    apply elem_of_app in Hr as [Hr|Hr].
    + by apply (proj1 (Forall_forall _ _)
                  (path_reports_made_by_rule table (trim value) statement importNames)).
    + by apply (proj1 (Forall_forall _ _)
                  (pattern_reports_made_by_rule matchers (trim value) statement)).
Qed.

(** X12: [checkNode] keeps the reports made before it and only adds to
    them, and each report it adds is for the statement itself and carries
    the trimmed source of the statement as [importSource]. *)
Theorem checkNode_reports_statement_and_source
    (trim : string → string) (table : gmap string PathEntry)
    (matchers : list PatternMatcher) (statement : Node) (rs : list Report) :
  ∃ new,
    (checkNode trim table matchers statement rs).2 = rs ++ new
    ∧ Forall (λ r, node r = statement
                   ∧ Some (data_importSource (data r)) = trim <$> source statement)
        new.
Proof.
  destruct (checkNode_new_reports trim table matchers statement rs)
    as (new & Hrun & Hnew).
  exists new. split; [done|]. apply Forall_forall. intros r Hr.
  destruct (Hnew r Hr) as (value & -> & Hmade).
  destruct Hmade as [[msg ->]|[[msg ->]|[(msg & names & d & ->)|(msg & name & d & ->)]]];
    by split.
Qed.

(** X13: each report that [checkNode] adds uses a message with the
    placeholder [customMessage] exactly when the custom message it carries
    is a non-empty string, and gives a location of its own exactly when it
    is about a specifier or the wildcard (the kinds [everything] and
    [importName]); the reports of a whole source or of a pattern give
    none. *)
Theorem checkNode_reports_message_and_location
    (trim : string → string) (table : gmap string PathEntry)
    (matchers : list PatternMatcher) (statement : Node) (rs : list Report) :
  ∃ new,
    (checkNode trim table matchers statement rs).2 = rs ++ new
    ∧ Forall (λ r, is_custom (messageId r) = truthy (data_customMessage (data r))
                   ∧ (is_Some (loc r) ↔ about_specifier (messageId r)))
        new.
Proof.
  destruct (checkNode_new_reports trim table matchers statement rs)
    as (new & Hrun & Hnew).
  exists new. split; [done|]. apply Forall_forall. intros r Hr.
  destruct (Hnew r Hr) as (value & _ & Hmade).
  destruct Hmade as [[msg ->]|[[msg ->]|[(msg & names & d & ->)|(msg & name & d & ->)]]];
    simpl; destruct (truthy msg); simpl; (split; [done|]); split;
    try done; try (by intros [? ?]); by eexists.
Qed.

(** ** Counting the reports of a name, and the keys of the names *)

Lemma filter_importName_reports_length (importSource : string)
    (customMessage : JsOpt string) (node : Node) (restricted : list string)
    (importNames : gmap string (list SpecifierData)) (n : string) :
  length (filter (names_importName n)
            (importName_reports importSource customMessage node restricted importNames))
  = length (filter (λ n', n' = n) restricted) * length (default [] (importNames !! n)).
Proof.
  induction restricted as [|n' restricted IH]; [done|].
  rewrite importName_reports_cons, filter_app, length_app, IH.
  destruct (decide (n' = n)) as [->|Hne].
  - rewrite filter_cons_True by done. simpl.
    rewrite filter_all, length_fmap; [done|].
    apply Forall_forall. intros r Hr.
    apply list_elem_of_fmap in Hr as (d & -> & _).
    apply importName_report_names.
  - rewrite filter_cons_False by done.
    rewrite filter_none; [done|].
    apply Forall_forall. intros r Hr [_ Hname].
    apply list_elem_of_fmap in Hr as (d & -> & _).
    simpl in Hname. by injection Hname.
Qed.

(** X14: for a rule with [importNames], the path check makes, for a name,
    as many [importName] reports as the name has occurrences in the
    statement, times the number of times the name is written in
    [importNames]: a name written twice in the rule is reported twice at
    each occurrence. *)
Theorem importName_reports_count
    (table : gmap string PathEntry) (importSource : string)
    (customMessage : JsOpt string) (restricted : list string)
    (importNames : gmap string (list SpecifierData)) (node : Node) (rs : list Report) :
  table !! importSource
    = Some {| entry_message := customMessage; entry_importNames := Val restricted |} →
  importNames !! "*" ≠ Some [] →
  ∃ new,
    checkRestrictedPathAndReport table importSource importNames node rs
    = (Normal tt, rs ++ new)
    ∧ ∀ n,
        length (filter (names_importName n) new)
        = length (filter (λ n', n' = n) restricted)
          * length (default [] (importNames !! n)).
Proof.
  intros Hentry Hstar. eexists. split.
  - by apply (checkRestrictedPathAndReport_names _ _ _ _ _ _ _ Hentry).
  - intros n. rewrite filter_app, length_app.
    rewrite (filter_everything_reports importSource customMessage node importNames
               n restricted).
    apply filter_importName_reports_length.
Qed.

Lemma importName_reports_count_witness :
  let table := restrictedPathMessages
                 [OItem (CObject {| cfg_name := Val "mod"; cfg_pattern := undefined;
                                    cfg_message := undefined;
                                    cfg_importNames := Val ["a"; "b"; "a"] |})] in
  let importNames := {[ "a" := [ {| sd_loc := at_ 1 9 1 10 |};
                                 {| sd_loc := at_ 1 20 1 26 |} ] ]} in
  ∃ new,
    checkRestrictedPathAndReport table "mod" importNames example_import []
    = (Normal tt, [] ++ new)
    ∧ length (filter (names_importName "a") new) = 4
    ∧ length (filter (names_importName "b") new) = 0.
Proof.
  intros table importNames.
  destruct (importName_reports_count table "mod" undefined ["a"; "b"; "a"]
              importNames example_import [])
    as (new & Hrun & Hcount); [reflexivity|by vm_compute|].
  exists new. split; [exact Hrun|].
  split; [exact (Hcount "a")|exact (Hcount "b")].
Defined.

(** X15: the map of names that [checkNode] builds from a list of
    specifiers has a key exactly for each non-empty name of a specifier of
    the list: no key is made up and the empty name is never a key. *)
Theorem collect_importNames_keys
    (node : Node) (l : list Specifier) (rs : list Report) :
  node_type node ≠ ExportAllDeclaration →
  specifiers node = Some l →
  ∃ importNames,
    collect_importNames node rs = (Normal importNames, rs)
    ∧ ∀ key,
        is_Some (importNames !! key)
        ↔ key ≠ "" ∧ ∃ s, s ∈ l ∧ specifier_name s = Val key.
Proof.
  intros Htype Hl. exists (foldl add_specifier ∅ l).
  split; [by apply collect_importNames_specifiers|].
  intros key. destruct (decide (key = "")) as [->|Hkey].
  - rewrite foldl_add_specifier_empty_key, lookup_empty.
    split; [by intros [? ?]|by intros [? _]].
  - rewrite importNames_lookup by done. unfold occurrences_of.
    split.
    + intros Hsome. split; [done|].
      destruct (filter (λ specifier, specifier_name specifier = Val key) l)
        as [|s rest] eqn:Hfilter; [by destruct Hsome|].
      assert (Hin : s ∈ filter (λ specifier, specifier_name specifier = Val key) l)
        by (rewrite Hfilter; constructor).
      apply list_elem_of_filter in Hin as [Hname Hin]. by exists s.
    + intros (_ & s & Hs & Hname).
      assert (Hin : s ∈ filter (λ specifier, specifier_name specifier = Val key) l)
        by (by apply list_elem_of_filter).
      destruct (filter (λ specifier, specifier_name specifier = Val key) l)
        as [|s' rest]; [by apply elem_of_nil in Hin|]. by eexists.
Qed.

Lemma collect_importNames_keys_witness :
  ∃ importNames,
    collect_importNames example_default_namespace [] = (Normal importNames, [])
    ∧ is_Some (importNames !! "default")
    ∧ is_Some (importNames !! "*")
    ∧ ¬ is_Some (importNames !! "ns").
Proof.
  destruct (collect_importNames_keys example_default_namespace
              (default [] (specifiers example_default_namespace)) [])
    as (importNames & Hrun & Hkeys); [discriminate|reflexivity|].
  exists importNames. split; [exact Hrun|]. split; [|split].
  - apply Hkeys. split; [discriminate|]. eexists. split; [constructor|reflexivity].
  - apply Hkeys. split; [discriminate|]. eexists.
    split; [apply list_elem_of_further; constructor|reflexivity].
  - intros Hsome. apply Hkeys in Hsome as (_ & s & Hs & Hname).
    apply elem_of_cons in Hs as [->|Hs]; [discriminate|].
    apply elem_of_cons in Hs as [->|Hs]; [discriminate|].
    by apply elem_of_nil in Hs.
Defined.
